(** * POLoMapModule.forward: the per-step map update of mapping/polo/polo_map_module.py

    A shallow embedding of [POLoMapModule.forward] and of the properties its
    specification states about it.

    Conventions of the embedding.
    - A tensor is a function from integer indices to its entries; its shape is
      carried by the configuration.  Map entries are [tval]: a finite number,
      one of the two infinities (the voxel channels use an infinity as the
      "unassigned" mark) or NaN.  Finite numbers are rationals: rounding of
      floating-point arithmetic is not modelled.
    - Quantities of the observation side (depth, features, voxel sums, the
      warped egocentric map) are finite, hence rationals; the thresholds the
      method divides by are taken to be non-zero.
    - Library functions the method calls (torch, home_robot, utils.depth) are
      the fields of [Extern]; a batched library operation acts on each batch
      element and each channel separately, and the field is that action.
    - The constants of mapping.polo.constants.MapConstants are the fields of
      [MapConstants].
    - Python exceptions are the [Raise] results of [result]: the unbound
      local of line 346, an index outside the relevance table, a class id
      that is not a key of the dictionary, and window bounds left at None.
      Tensors are taken to have the shapes the docstring gives.
    - The one place where the method writes through a view of an argument,
      lines 231-232, is modelled a second time on a heap of storages
      ([Storage]). *)

From Stdlib Require Import ZArith QArith Qminmax Qround Lqa Lia List Bool FunctionalExtensionality.
From stdpp Require Import base option list gmap.

Open Scope Z_scope.

(** ** Tensor entries and the torch operations on them *)

Module Torch.

Inductive tval : Type :=
| Fin (q : Q)
| PInf
| NInf
| NaN.

Definition plane (A : Type) : Type := Z -> Z -> A.
Definition tensor3 (A : Type) : Type := Z -> plane A.

(** [Tensor.isinf] *)
Definition isinf (v : tval) : bool :=
  match v with PInf | NInf => true | _ => false end.

Definition isnan (v : tval) : bool :=
  match v with NaN => true | _ => false end.

Definition Qgtb (a b : Q) : bool := negb (Qle_bool a b).

(** [a <= b] on tensor entries; every comparison with NaN is false. *)
Definition tleb (a b : tval) : bool :=
  match a, b with
  | NaN, _ | _, NaN => false
  | NInf, _ => true
  | _, PInf => true
  | Fin x, Fin y => Qle_bool x y
  | _, _ => false
  end.

(** [a == b] on tensor entries. *)
Definition teqb (a b : tval) : bool :=
  match a, b with
  | Fin x, Fin y => Qeq_bool x y
  | PInf, PInf | NInf, NInf => true
  | _, _ => false
  end.

Definition tadd (a b : tval) : tval :=
  match a, b with
  | NaN, _ | _, NaN => NaN
  | PInf, NInf | NInf, PInf => NaN
  | PInf, _ | _, PInf => PInf
  | NInf, _ | _, NInf => NInf
  | Fin x, Fin y => Fin (x + y)
  end.

Definition topp (a : tval) : tval :=
  match a with
  | Fin x => Fin (- x)
  | PInf => NInf
  | NInf => PInf
  | NaN => NaN
  end.

Definition tsub (a b : tval) : tval := tadd a (topp b).

(** [torch.max] over a dimension of size two: NaN propagates. *)
Definition tmax (a b : tval) : tval :=
  match a, b with
  | NaN, _ | _, NaN => NaN
  | PInf, _ | _, PInf => PInf
  | NInf, v | v, NInf => v
  | Fin x, Fin y => Fin (Qmax x y)
  end.

(** [torch.clamp(x, min=lo, max=hi)] on a finite number. *)
Definition Qclamp (lo hi x : Q) : Q := Qmin (Qmax x lo) hi.

(** [torch.clamp(v, min=lo, max=hi)] on a tensor entry: NaN stays NaN. *)
Definition tclamp (lo hi : Q) (v : tval) : tval :=
  match v with
  | Fin x => Fin (Qclamp lo hi x)
  | PInf => Fin hi
  | NInf => Fin lo
  | NaN => NaN
  end.

(** [Tensor.int()]: conversion to an integer truncates toward zero. *)
Definition Qtrunc (x : Q) : Z := Z.quot (Qnum x) (Z.pos (Qden x)).

(** The entry lies in the closed interval [lo, hi]. *)
Definition in_range (lo hi : Q) (v : tval) : Prop :=
  exists q, v = Fin q /\ (lo <= q)%Q /\ (q <= hi)%Q.

(** Maximum of a list of numbers (the list is not empty where it is used). *)
Definition max_list (l : list Q) : Q :=
  match l with
  | [] => 0%Q
  | x :: t => fold_left Qmax t x
  end.

(** Sum of [f] over the integers [lo, lo+1, ..., hi-1]. *)
Definition sum_range (lo hi : Z) (f : Z -> Q) : Q :=
  fold_left (fun acc h => (acc + f h)%Q) (map (fun i => lo + Z.of_nat i) (seq 0 (Z.to_nat (hi - lo)))) 0%Q.

(** In-place masked or sliced assignment: entries selected by [sel] take the
    entry of [src], the others keep theirs. *)
Definition assign {A : Type} (dst : tensor3 A) (sel : Z -> Z -> Z -> bool) (src : tensor3 A) : tensor3 A :=
  fun c r k => if sel c r k then src c r k else dst c r k.

Definition fill {A : Type} (dst : tensor3 A) (sel : Z -> Z -> Z -> bool) (v : A) : tensor3 A :=
  assign dst sel (fun _ _ _ => v).

End Torch.

(** ** Python: exceptions, indexing and slices *)

Module Py.

Inductive exn : Type :=
| UnboundLocalError
| IndexError
| KeyError
| TypeError.

Inductive result (A : Type) : Type :=
| Ok (a : A)
| Raise (e : exn).
Arguments Ok {A} a.
Arguments Raise {A} e.

Definition bind {A B : Type} (m : result A) (f : A -> result B) : result B :=
  match m with
  | Ok a => f a
  | Raise e => Raise e
  end.

(** Reading a local variable: [None] is a name that was never bound. *)
Definition read_local {A : Type} (v : option A) : result A :=
  match v with
  | Some a => Ok a
  | None => Raise UnboundLocalError
  end.

Fixpoint mapM {A B : Type} (f : A -> result B) (l : list A) : result (list B) :=
  match l with
  | [] => Ok []
  | x :: t => bind (f x) (fun y => bind (mapM f t) (fun ys => Ok (y :: ys)))
  end.

(** [l[i]] with Python's negative indices. *)
Definition index {A : Type} (l : list A) (i : Z) : result A :=
  let n := Z.of_nat (length l) in
  let j := if i <? 0 then i + n else i in
  if (0 <=? j) && (j <? n)
  then match nth_error l (Z.to_nat j) with Some a => Ok a | None => Raise IndexError end
  else Raise IndexError.

(** A bound of the slice [start:stop] over a dimension of length [len]. *)
Definition slice_bound (len i : Z) : Z :=
  let j := if i <? 0 then i + len else i in
  Z.max 0 (Z.min len j).

(** [i] is one of the indices the slice [start:stop] selects. *)
Definition in_slice (len start stop i : Z) : bool :=
  (0 <=? i) && (i <? len) && (slice_bound len start <=? i) && (i <? slice_bound len stop).

End Py.

Import Torch Py.

#[global] Instance result_ret : MRet result := @Ok.
#[global] Instance result_bind : MBind result := fun A B f m => Py.bind m f.

(** ** Configuration, channel constants, inputs *)

(** Agent pose [(x, y, heading)]. *)
Record pose : Type := mkPose { pose_x : Q; pose_y : Q; pose_o : Q }.

(** The constructor arguments of [POLoMapModule] that [forward] reads. *)
Record Config : Type := mkConfig {
  camera_height : Q;
  num_sem_categories : Z;
  map_size_cm : Z;
  map_resolution : Z;
  vision_range : Z;
  global_downscaling : Z;
  du_scale : Z;
  cat_pred_threshold : Q;
  exp_pred_threshold : Q;
  map_pred_threshold : Q;
  max_depth_m : Q;
  min_obs_height_cm : Z;
  dilate_obstacles : bool;
  dilate_size : Z;
  close_range_cm : Z;
  (** [torch.logit(torch.tensor(probability_prior))] *)
  prior_logit : Q
}.

(** The channel indices of mapping.polo.constants.MapConstants (the module is
    imported by the source file; its values are parameters here). *)
Record MapConstants : Type := mkMC {
  OBSTACLE_MAP : Z;
  EXPLORED_MAP : Z;
  CURRENT_LOCATION : Z;
  BEEN_CLOSE_MAP : Z;
  PROBABILITY_MAP : Z;
  VOXEL_START : Z;
  NON_SEM_CHANNELS : Z
}.

(** Library functions called by [forward], each on one batch element and, for
    the channel-wise ones, on one channel. *)
Record Extern : Type := mkExtern {
  grid : Type;
  (** [tra.euler_from_matrix(p[:3, :3], "rzyx")[1]] *)
  euler_tilt : plane Q -> Q;
  (** [torch.rad2deg] *)
  rad2deg : Q -> Q;
  (** [du.get_point_cloud_from_z_t(depth, camera_matrix, device, scale)] *)
  get_point_cloud_from_z_t : plane Q -> Z -> tensor3 Q;
  (** [du.transform_camera_view_t(cloud, agent_height, tilt_degrees, device)] *)
  transform_camera_view_t : tensor3 Q -> Q -> Q -> tensor3 Q;
  (** [du.transform_pose_t(cloud, [shift, 0, pi / 2], device)] *)
  transform_pose_t : tensor3 Q -> Z -> tensor3 Q;
  (** [du.splat_feat_nd(init_grid, feat, coords)] for one feature channel:
      coordinates indexed [axis][row][col], features by pixel, the result
      by the three grid axes. *)
  splat_feat_nd : tensor3 Q -> (Z -> Q) -> tensor3 Q;
  (** [nn.AvgPool2d(k)(x).view(...)] and [nn.MaxPool2d(k)(x).view(...)]: the
      pooled plane, flattened to pixels. *)
  AvgPool2d : Z -> plane Q -> Z -> Q;
  MaxPool2d : Z -> plane Q -> Z -> Q;
  (** [torch.nn.functional.conv2d(x, ones(1, 1, k, k), padding=p)] *)
  conv2d_ones : Z -> Z -> plane Q -> plane Q;
  (** [torch.logit(x, eps=1e-6)] *)
  logit : Q -> Q;
  (** [pu.get_new_pose_batch(pose, pose_delta)] *)
  get_new_pose_batch : pose -> pose -> pose;
  (** [ru.get_grid(st_pose, size, dtype)]: the rotation and the translation
      sampling grids. *)
  get_grid : pose -> grid * grid;
  (** [F.grid_sample(x, grid, align_corners=True)] *)
  grid_sample : plane Q -> grid -> plane Q
}.

(** [detection_results]: scores, classes and masks are indexed
    [batch][instance]; relevance by class id. *)
Record Detections : Type := mkDetections {
  scores : list (list Q);
  classes : list (list Z);
  masks : list (list (plane Q));
  relevance : list Q
}.

(** The local variables the detection block (lines 275-302) leaves behind.
    [num_detected_instance = None] is the name left unbound; the three
    [detected_instances_] lists are those of batch element 0, the masks
    already pooled. *)
Record det_locals : Type := mkLocals {
  prob_feat : list (Z -> Q);
  num_detected_instance : option Z;
  detected_instances_classes : list Z;
  detected_instances_scores : list Q;
  detected_instances_masks : list (Z -> Q)
}.

(** The inputs of one batch element, with its row of [prob_feat]. *)
Record agent_in : Type := mkAgentIn {
  a_obs : tensor3 Q;
  a_camera_pose : option (plane Q);
  a_pose_delta : pose;
  a_prev_map : tensor3 tval;
  a_prev_pose : pose;
  a_prob_feat : Z -> Q
}.

(** An entry of the instance dictionary. *)
Record ins_obj : Type := mkIns {
  bb : Z * Z * Z * Z;
  center : Q * Q;
  score : Q;
  class : Z
}.

(** What the warp hands to the fusion for one batch element. *)
Record warped : Type := mkWarped {
  translated : tensor3 Q;
  occupaid_voxel_st : tensor3 Q;
  instances_st : tensor3 Q
}.

Definition zrange (n : Z) : list Z := map Z.of_nat (seq 0 (Z.to_nat n)).

Definition zmin_list (l : list Z) : Z :=
  match l with [] => 0 | x :: t => fold_left Z.min t x end.

Definition zmax_list (l : list Z) : Z :=
  match l with [] => 0 | x :: t => fold_left Z.max t x end.

(** [p.nonzero()] on an [M] x [M] plane: the (row, column) pairs of the
    non-zero entries, in row-major order. *)
Definition nonzero (M : Z) (p : plane Q) : list (Z * Z) :=
  flat_map (fun r => map (fun k => (r, k)) (List.filter (fun k => negb (Qeq_bool (p r k) 0)) (zrange M))) (zrange M).

(** Boolean-mask indexing [l[idx]]. *)
Definition select {A : Type} (l : list A) (idx : list bool) : list A :=
  map fst (List.filter snd (combine l idx)).

(** ** The method *)

Section Forward.

Variable ext : Extern.
Variable cfg : Config.
Variable MC : MapConstants.

(** *** Attributes computed by [__init__] *)

Definition xy_resolution : Z := map_resolution cfg.
Definition z_resolution : Z := map_resolution cfg.
Definition local_map_size_cm : Z := map_size_cm cfg / global_downscaling cfg.
Definition max_depth : Q := (max_depth_m cfg * 100)%Q.
Definition self_agent_height : Q := (camera_height cfg * 100)%Q.
Definition max_voxel_height : Z := Qtrunc (360 / inject_Z z_resolution).
Definition min_voxel_height : Z := Qtrunc (-40 / inject_Z z_resolution).
Definition min_mapped_height : Z :=
  Qtrunc (inject_Z (min_obs_height_cm cfg) / inject_Z z_resolution - inject_Z min_voxel_height).
Definition filtered_min_height : Z :=
  Qtrunc (20 / inject_Z z_resolution - inject_Z min_voxel_height).
Definition max_mapped_height : Z :=
  Qtrunc ((self_agent_height + 1) / inject_Z z_resolution - inject_Z min_voxel_height).
Definition shift_loc : Z := vision_range cfg * xy_resolution / 2.
Definition close_range : Z := close_range_cm cfg / xy_resolution.
Definition confirm_detection_threashold : Q := 1 # 2.

(** [self.local_map_size_cm // self.xy_resolution]: the side of the local map. *)
Definition map_side : Z := local_map_size_cm / xy_resolution.
(** [MC.NON_SEM_CHANNELS + self.num_sem_categories] *)
Definition ori_channel_num : Z := NON_SEM_CHANNELS MC + num_sem_categories cfg.

(** *** Lines 275-302: probability features and confirmed instances *)

(** [scores * relevance[classes]] *)
Definition score_relevence (d : Detections) : result (list (list Q)) :=
  mapM (fun row : list Q * list Z =>
          mapM (fun sc : Q * Z => r ← index (relevance d) (snd sc); mret (fst sc * r)%Q)
               (combine (fst row) (snd row)))
       (combine (scores d) (classes d)).

(** One row of [prob_feat]: the per-pixel maximum over the instances of
    mask times score times relevance, max-pooled. *)
Definition prob_feat_row (ms : list (plane Q)) (sr : list Q) : Z -> Q :=
  MaxPool2d ext (du_scale cfg)
    (fun r c => max_list (map (fun m : plane Q * Q => (fst m r c * snd m)%Q) (combine ms sr))).

(** [scores[0] > self.confirm_detection_threashold] *)
Definition detect_idx (d : Detections) : list bool :=
  map (fun s => Qgtb s confirm_detection_threashold) (hd [] (scores d)).

Definition detection_block (batch_size : nat) (detection_results : option Detections) : result det_locals :=
  let zeros := repeat (fun _ : Z => 0%Q) batch_size in
  match detection_results with
  | None => mret (mkLocals zeros None [] [] [])
  | Some d =>
      if (length (hd [] (masks d)) =? 0)%nat
      then mret (mkLocals zeros (Some 0) [] [] [])
      else
        sr ← score_relevence d;
        let pf := map (fun row : list (plane Q) * list Q => prob_feat_row (fst row) (snd row))
                      (combine (masks d) sr) in
        let n := Z.of_nat (length (List.filter id (detect_idx d))) in
        mret (mkLocals pf (Some n)
                (select (hd [] (classes d)) (detect_idx d))
                (select (hd [] (scores d)) (detect_idx d))
                (map (MaxPool2d ext (du_scale cfg)) (select (hd [] (masks d)) (detect_idx d))))
  end.

(** [list(range(a, b))] *)
Definition py_range (a b : Z) : list Z := map (fun i => a + Z.of_nat i) (seq 0 (Z.to_nat (b - a))).

(** *** The body of [forward] for one batch element *)

Section Agent.

(** [obs.size(1)], [num_detected_instance] and [detected_instances_masks]
    are shared by the batch. *)
Variable obs_channels : Z.
Variable n : Z.
Variable inst_masks : list (Z -> Q).
Variable a : agent_in.

(** Lines 211-229 *)
Definition tilt : Q :=
  match a_camera_pose a with Some p => euler_tilt ext p | None => 0%Q end.
Definition agent_height : Q :=
  match a_camera_pose a with Some p => (p 2%Z 3%Z * 100)%Q | None => self_agent_height end.

(** Lines 231-232: the depth plane with the far returns zeroed. *)
Definition depth : plane Q :=
  fun r c => if Qgtb (a_obs a 3 r c) max_depth then 0%Q else a_obs a 3 r c.

(** Lines 233-252 and 306-308 *)
Definition point_cloud_t : tensor3 Q := get_point_cloud_from_z_t ext depth (du_scale cfg).
Definition point_cloud_base_coords : tensor3 Q :=
  transform_camera_view_t ext point_cloud_t agent_height (rad2deg ext tilt).
Definition point_cloud_map_coords : tensor3 Q :=
  transform_pose_t ext point_cloud_base_coords shift_loc.

(** Lines 343-352: the channel layout of the features *)
Definition feat_all_points_channel : Z := 1.
Definition feat_ob_channel : Z := feat_all_points_channel + obs_channels - 4.
Definition feat_prob_channel : Z := feat_ob_channel + 1.
Definition feat_instance_channel : Z := feat_prob_channel + n.
Definition voxel_channels : Z :=
  if 0 <? n then feat_instance_channel else feat_prob_channel.

(** Lines 363-377: [feat] starts as ones; the three slice assignments
    follow, the last one only when [num_detected_instance > 0]. *)
Definition feat (c : Z) : Z -> Q :=
  if (0 <? n) && (feat_prob_channel <=? c) && (c <? feat_instance_channel)
  then nth (Z.to_nat (c - feat_prob_channel)) inst_masks (fun _ => 0%Q)
  else if (feat_ob_channel <=? c) && (c <? feat_prob_channel)
  then a_prob_feat a
  else if (1 <=? c) && (c <? feat_ob_channel)
  then AvgPool2d ext (du_scale cfg) (a_obs a (c - 1 + 4))
  else fun _ => 1%Q.

(** Lines 387-406: the normalised coordinates, indexed [axis][row][col]
    as after the [permute]. *)
Definition XYZ_cm_std : tensor3 Q :=
  fun k r c =>
    let v := point_cloud_map_coords r c k in
    if (k =? 0) || (k =? 1)
    then ((v / inject_Z xy_resolution - inject_Z (vision_range cfg / 2))
          / inject_Z (vision_range cfg) * 2)%Q
    else if k =? 2
    then ((v / inject_Z z_resolution - inject_Z ((max_voxel_height + min_voxel_height) / 2))
          / inject_Z (max_voxel_height - min_voxel_height) * 2)%Q
    else v.

(** Line 409: [splat_feat_nd(...).transpose(2, 3)], one grid per channel. *)
Definition voxels (c : Z) : tensor3 Q :=
  fun i j h => splat_feat_nd ext XYZ_cm_std (feat c) j i h.

(** Lines 411-427: projections along the height axis *)
Definition height_bins : Z := max_voxel_height - min_voxel_height.
Definition height_slice_sum (lo hi : Z) (v : tensor3 Q) : plane Q :=
  fun i j => sum_range (slice_bound height_bins lo) (slice_bound height_bins hi) (v i j).
Definition all_height_proj : plane Q :=
  fun i j => sum_range 0 height_bins (voxels 0 i j).
Definition filtered_height_proj (c : Z) : plane Q :=
  height_slice_sum filtered_min_height max_mapped_height (voxels c).
Definition agent_height_proj : plane Q :=
  height_slice_sum min_mapped_height max_mapped_height (voxels 0).
Definition fp_exp_pred : plane Q :=
  fun i j => (all_height_proj i j / exp_pred_threshold cfg)%Q.
Definition close_exp : plane Q :=
  fun i j => if in_slice (vision_range cfg) close_range (vision_range cfg) i
             then 0%Q else fp_exp_pred i j.

(** Lines 431-438 *)
Definition prob_map : plane Q :=
  fun i j => max_list (map (voxels (feat_prob_channel - 1) i j)
                (py_range (slice_bound height_bins filtered_min_height)
                          (slice_bound height_bins max_mapped_height))).
Definition prob_logit : plane Q :=
  fun i j => Qclamp (-10) 10
               (if Qeq_bool (fp_exp_pred i j) 0 then 0%Q
                else (logit ext (prob_map i j) - prior_logit cfg)%Q).

(** Lines 423 and 455-459 *)
Definition fp_map_pred : plane Q :=
  let raw : plane Q := fun i j => (agent_height_proj i j / map_pred_threshold cfg)%Q in
  if dilate_obstacles cfg
  then fun i j => Qclamp 0 1 (conv2d_ones ext (dilate_size cfg) (dilate_size cfg / 2) raw i j)
  else raw.


(** Lines 445-476: the egocentric view on the local-map canvas *)
Definition x1 : Z := local_map_size_cm / (xy_resolution * 2) - vision_range cfg / 2.
Definition x2 : Z := x1 + vision_range cfg.
Definition y1 : Z := local_map_size_cm / (xy_resolution * 2).
Definition y2 : Z := y1 + vision_range cfg.

(** The rows [y1:y2] and columns [x1:x2] of the canvas. *)
Definition window (r k : Z) : bool :=
  in_slice map_side y1 y2 r && in_slice map_side x1 x2 k.

Definition agent_view : tensor3 Q :=
  let v0 : tensor3 Q := fun _ _ _ => 0%Q in
  let v1 := assign v0
    (fun c r k => in_slice ori_channel_num (OBSTACLE_MAP MC) (OBSTACLE_MAP MC + 1) c && window r k)
    (fun _ r k => fp_map_pred (r - y1) (k - x1)) in
  let v2 := assign v1
    (fun c r k => in_slice ori_channel_num (EXPLORED_MAP MC) (EXPLORED_MAP MC + 1) c && window r k)
    (fun _ r k => fp_exp_pred (r - y1) (k - x1)) in
  let v3 := assign v2
    (fun c r k => in_slice ori_channel_num (BEEN_CLOSE_MAP MC) (BEEN_CLOSE_MAP MC + 1) c && window r k)
    (fun _ r k => close_exp (r - y1) (k - x1)) in
  let v4 := assign v3
    (fun c r k => (c =? PROBABILITY_MAP MC) && window r k)
    (fun _ r k => prob_logit (r - y1) (k - x1)) in
  let v5 := assign v4
    (fun c r k => in_slice ori_channel_num (VOXEL_START MC) (NON_SEM_CHANNELS MC) c && window r k)
    (fun c r k => voxels (feat_prob_channel - 1) (r - y1) (k - x1) (c - VOXEL_START MC)) in
  assign v5
    (fun c r k => in_slice ori_channel_num (NON_SEM_CHANNELS MC) ori_channel_num c && window r k)
    (fun c r k => Qdiv (filtered_height_proj (1 + (c - NON_SEM_CHANNELS MC)) (r - y1) (k - x1))
                       (cat_pred_threshold cfg)).

(** Lines 479-503: the occupancy counts and the instance evidence, and the
    concatenation of the three blocks along the channel axis. *)
Definition occupaid_voxel : tensor3 Q :=
  fun h r k => if window r k then voxels 0 (r - y1) (k - x1) h else 0%Q.
Definition instances : tensor3 Q :=
  fun i r k => if window r k
               then filtered_height_proj (feat_prob_channel + i) (r - y1) (k - x1)
               else 0%Q.
Definition agent_view_cat : tensor3 Q :=
  fun c => if c <? ori_channel_num then agent_view c
           else if c <? ori_channel_num + max_mapped_height
                then occupaid_voxel (c - ori_channel_num)
                else instances (c - ori_channel_num - max_mapped_height).

(** Lines 506-520: the new pose and the two resampling passes *)
Definition current_pose : pose := get_new_pose_batch ext (a_prev_pose a) (a_pose_delta a).
Definition st_pose : pose :=
  let half := inject_Z (local_map_size_cm / (xy_resolution * 2)) in
  mkPose (- ((pose_x current_pose * 100 / inject_Z xy_resolution - half) / half))%Q
         (- ((pose_y current_pose * 100 / inject_Z xy_resolution - half) / half))%Q
         (90 - pose_o current_pose)%Q.
Definition rotated (c : Z) : plane Q :=
  grid_sample ext (agent_view_cat c) (fst (get_grid ext st_pose)).
Definition translated_all (c : Z) : plane Q :=
  grid_sample ext (rotated c) (snd (get_grid ext st_pose)).

(** Lines 524-528: the three blocks are taken apart again. *)
Definition warp : warped :=
  mkWarped (fun c => translated_all c)
           (fun j => translated_all (ori_channel_num + j))
           (fun i => translated_all (ori_channel_num + max_mapped_height + i)).

(** Lines 658-659: [(current_pose[:, :2] * 100.0 / self.xy_resolution).int()] *)
Definition curr_loc : Z * Z :=
  (Qtrunc (pose_x current_pose * 100 / inject_Z xy_resolution),
   Qtrunc (pose_y current_pose * 100 / inject_Z xy_resolution)).

End Agent.

(** *** Lines 563-668: fusion with the previous map *)

Section Fusion.

Variable prev_map : tensor3 tval.
Variable w : warped.
Variable loc : Z * Z.

(** Lines 563-565 *)
Definition idx_no_prob : list Z :=
  py_range 0 (PROBABILITY_MAP MC)
  ++ py_range (NON_SEM_CHANNELS MC) (NON_SEM_CHANNELS MC + num_sem_categories cfg).
Definition translated_clamped : tensor3 Q :=
  fun c r k => if existsb (Z.eqb c) idx_no_prob
               then Qclamp 0 1 (translated w c r k)
               else translated w c r k.

(** Lines 567-570: element-wise maximum of the two maps *)
Definition max_fused : tensor3 tval :=
  fun c r k => tmax (prev_map c r k) (Fin (translated_clamped c r k)).

(** Lines 573-574: the probability channel is the clamped sum *)
Definition prob_summed : tensor3 tval :=
  assign max_fused (fun c _ _ => c =? PROBABILITY_MAP MC)
    (fun _ r k => tadd (prev_map (PROBABILITY_MAP MC) r k)
                       (Fin (translated_clamped (PROBABILITY_MAP MC) r k))).
Definition prob_clamped : tensor3 tval :=
  assign prob_summed (fun c _ _ => c =? PROBABILITY_MAP MC)
    (fun _ r k => tclamp (-10) 10 (prob_summed (PROBABILITY_MAP MC) r k)).

(** Lines 601-603 *)
Definition confident_no_obj : plane bool :=
  fun r k => teqb (prob_clamped (BEEN_CLOSE_MAP MC) r k) (Fin 1).
Definition prob_overridden : tensor3 tval :=
  fill prob_clamped (fun c r k => (c =? PROBABILITY_MAP MC) && confident_no_obj r k) (Fin (-10)).

(** Lines 611-616: the voxel channels, indexed by height bin *)
Definition is_occupaid : tensor3 bool :=
  fun j r k => Qgtb (occupaid_voxel_st w j r k) (1 # 2).
Definition prev_voxel : tensor3 tval :=
  fun j => prev_map (VOXEL_START MC + j).
Definition is_pre_empty : tensor3 bool :=
  fun j r k => isinf (prev_voxel j r k).
Definition need_assign_logit : tensor3 bool :=
  fun j r k => is_occupaid j r k && is_pre_empty j r k.
Definition need_addition_logit : tensor3 bool :=
  fun j r k => is_occupaid j r k && negb (is_pre_empty j r k).
Definition voxel_logit : tensor3 Q :=
  fun j r k => logit ext (translated_clamped (VOXEL_START MC + j) r k).

(** Lines 618-624: case 1 assigns the logit, case 2 adds the logit and
    subtracts the prior. *)
Definition updated_case1 : tensor3 tval :=
  assign prev_voxel need_assign_logit (fun j r k => Fin (voxel_logit j r k)).
Definition updated_case2 : tensor3 tval :=
  assign updated_case1 need_addition_logit
    (fun j r k => tsub (tadd (prev_voxel j r k) (Fin (voxel_logit j r k)))
                       (Fin (prior_logit cfg))).

(** Lines 628-629 *)
Definition is_post_occupaid : tensor3 bool :=
  fun j r k => negb (isinf (updated_case2 j r k)).
Definition updated_clamped : tensor3 tval :=
  assign updated_case2 is_post_occupaid (fun j r k => tclamp (-10) 10 (updated_case2 j r k)).

(** Lines 642-645 *)
Definition updated : tensor3 tval :=
  fill updated_clamped (fun j r k => confident_no_obj r k && is_post_occupaid j r k) (Fin (-10)).
Definition voxel_written : tensor3 tval :=
  assign prob_overridden
    (fun c _ _ => in_slice ori_channel_num (VOXEL_START MC) (NON_SEM_CHANNELS MC) c)
    (fun c => updated (c - VOXEL_START MC)).

(** Line 657 *)
Definition location_reset : tensor3 tval :=
  fill voxel_written (fun c _ _ => c =? CURRENT_LOCATION MC) (Fin 0).

(** Lines 661-668, with [x, y = curr_loc[e]] *)
Definition location_marked : tensor3 tval :=
  let x := fst loc in
  let y := snd loc in
  fill location_reset
    (fun c r k =>
       in_slice ori_channel_num (CURRENT_LOCATION MC) (CURRENT_LOCATION MC + 2) c
       && in_slice map_side (y - 2) (y + 3) r
       && in_slice map_side (x - 2) (x + 3) k)
    (Fin 1).

End Fusion.

(** The returned [current_map] of one batch element. *)
Definition current_map (obs_channels n : Z) (inst_masks : list (Z -> Q)) (a : agent_in) : tensor3 tval :=
  location_marked (a_prev_map a) (warp obs_channels n inst_masks a) (curr_loc a).

(** *** Lines 532-556: the instance dictionary *)

(** [{k: [] for k in range(self.num_sem_categories)}] *)
Definition empty_instances_dict : gmap Z (list ins_obj) :=
  foldr (fun k d => <[k := []]> d) ∅ (py_range 0 (num_sem_categories cfg)).

(** One turn of the loop over [range(num_detected_instance)]. *)
Definition instance_turn (lmb : option (list (Z * Z * Z * Z))) (ist : tensor3 Q)
    (cls : list Z) (scs : list Q) (d : gmap Z (list ins_obj)) (i : Z)
    : result (gmap Z (list ins_obj)) :=
  let ins_mask := nonzero map_side (ist i) in
  if 0 <? Z.of_nat (length ins_mask)
  then
    let x1 := zmin_list (map fst ins_mask) in
    let x2 := zmax_list (map fst ins_mask) in
    let y1 := zmin_list (map snd ins_mask) in
    let y2 := zmax_list (map snd ins_mask) in
    l ← match lmb with Some rows => index rows 0 | None => Raise TypeError end;
    let bb := (x1 + l.1.1.1, x2 + l.1.1.1, y1 + l.1.2, y2 + l.1.2) in
    let center := ((inject_Z (x1 + x2) / 2 + inject_Z l.1.1.1)%Q,
                   (inject_Z (y1 + y2) / 2 + inject_Z l.1.2)%Q) in
    s ← index scs i;
    c ← index cls i;
    match d !! c with
    | Some objs => mret (<[c := objs ++ [mkIns bb center s c]]> d)
    | None => Raise KeyError
    end
  else mret d.

Fixpoint instance_loop (lmb : option (list (Z * Z * Z * Z))) (ist : tensor3 Q)
    (cls : list Z) (scs : list Q) (d : gmap Z (list ins_obj)) (turns : list Z)
    : result (gmap Z (list ins_obj)) :=
  match turns with
  | [] => mret d
  | i :: rest => d' ← instance_turn lmb ist cls scs d i; instance_loop lmb ist cls scs d' rest
  end.

(** *** The method *)

Definition agent_of (obs : list (tensor3 Q)) (pose_delta : list pose)
    (camera_pose : option (list (plane Q))) (prev_map : list (tensor3 tval))
    (prev_pose : list pose) (pf : list (Z -> Q)) (e : nat) : agent_in :=
  mkAgentIn (nth e obs (fun _ _ _ => 0%Q))
            (option_map (fun l => nth e l (fun _ _ => 0%Q)) camera_pose)
            (nth e pose_delta (mkPose 0 0 0))
            (nth e prev_map (fun _ _ _ => Fin 0))
            (nth e prev_pose (mkPose 0 0 0))
            (nth e pf (fun _ => 0%Q)).

(** [forward(obs, pose_delta, camera_pose, prev_map, prev_pose,
    detection_results, lmb)]; [obs_channels] is [obs.size(1)] and the batch
    size is the number of frames in [obs]. *)
Definition forward (obs : list (tensor3 Q)) (obs_channels : Z) (pose_delta : list pose)
    (camera_pose : option (list (plane Q))) (prev_map : list (tensor3 tval))
    (prev_pose : list pose) (detection_results : option Detections)
    (lmb : option (list (Z * Z * Z * Z)))
    : result (list (tensor3 tval) * list pose * option (gmap Z (list ins_obj))) :=
  let batch_size := length obs in
  locals ← detection_block batch_size detection_results;
  n ← read_local (num_detected_instance locals);
  let agents := map (agent_of obs pose_delta camera_pose prev_map prev_pose (prob_feat locals))
                    (seq 0 batch_size) in
  let ims := detected_instances_masks locals in
  instances_dict ←
    (if 0 <? n
     then d ← instance_loop lmb
                (instances_st (warp obs_channels n ims
                   (agent_of obs pose_delta camera_pose prev_map prev_pose (prob_feat locals) 0)))
                (detected_instances_classes locals) (detected_instances_scores locals)
                empty_instances_dict (py_range 0 n);
          mret (Some d)
     else mret None);
  mret (map (current_map obs_channels n ims) agents,
        map current_pose agents,
        instances_dict).

End Forward.

(** ** Tensor objects and their storage (lines 231-232)

    [obs[:, 3, :, :]] is a view of the caller's observation tensor;
    [Tensor.float()] returns the tensor itself when its element type is
    already float32 and a converted copy otherwise; the masked assignment
    writes into the storage of the tensor it is applied to. *)

Module Storage.

Inductive dtype : Type := float16 | float32 | float64.

#[global] Instance dtype_eq_dec : EqDecision dtype.
Proof. solve_decision. Defined.

(** A storage holds the entries of a 4-D tensor [batch][channel][row][col]. *)
Record buffer : Type := mkBuffer {
  buf_dtype : dtype;
  buf_data : Z -> tensor3 Q
}.

(** A tensor object: a storage address and the part of the storage it
    views, the whole of it or the plane [:, c, :, :]. *)
Inductive view : Type := Whole | Channel (c : Z).
Record tensor : Type := mkTensor { t_addr : nat; t_view : view }.

Definition in_view (v : view) (c : Z) : bool :=
  match v with Whole => true | Channel c' => c =? c' end.

(** [t[:, c, :, :]] *)
Definition select_channel (t : tensor) (c : Z) : tensor :=
  mkTensor (t_addr t) (Channel c).

(** [t.float()] *)
Definition to_float (h : gmap nat buffer) (t : tensor) : gmap nat buffer * tensor :=
  match h !! t_addr t with
  | Some b =>
      if decide (buf_dtype b = float32) then (h, t)
      else
        let a := fresh (dom h) in
        (<[a := mkBuffer float32 (buf_data b)]> h, mkTensor a (t_view t))
  | None => (h, t)
  end.

(** [t[t > bound] = 0] *)
Definition zero_above (h : gmap nat buffer) (t : tensor) (bound : Q) : gmap nat buffer :=
  match h !! t_addr t with
  | Some b =>
      <[t_addr t := mkBuffer (buf_dtype b)
          (fun e c r k =>
             if in_view (t_view t) c && Qgtb (buf_data b e c r k) bound
             then 0%Q else buf_data b e c r k)]> h
  | None => h
  end.

(** Lines 231-232 on the heap: the heap afterwards and the tensor [depth]. *)
Definition depth_lines (max_depth : Q) (h : gmap nat buffer) (obs : tensor) : gmap nat buffer * tensor :=
  let '(h1, depth) := to_float h (select_channel obs 3) in
  (zero_above h1 depth max_depth, depth).

(** The entry [e, c, r, k] the caller reads in its tensor. *)
Definition read (h : gmap nat buffer) (t : tensor) (e c r k : Z) : option Q :=
  b ← h !! t_addr t; Some (buf_data b e c r k).

(** A float32 and a float64 observation of one frame whose depth plane
    holds 600 cm, and the caller's tensor object for either. *)
Definition far_frame : buffer :=
  mkBuffer float32 (fun _ c _ _ => if c =? 3 then 600%Q else 0%Q).
Definition far_frame64 : buffer :=
  mkBuffer float64 (fun _ c _ _ => if c =? 3 then 600%Q else 0%Q).
Definition obs_tensor : tensor := mkTensor 0%nat Whole.

End Storage.

(** ** Calls of [forward] seen from one batch element *)

(** The channel indices are laid out as the method uses them: the named
    geometric channels and the channel after [CURRENT_LOCATION] lie below
    [PROBABILITY_MAP], which lies below the voxel block
    [VOXEL_START, NON_SEM_CHANNELS); the location channels are not one of
    obstacle, explored, been-close. *)
Definition layout_ok (cfg : Config) (MC : MapConstants) : bool :=
  (0 <=? OBSTACLE_MAP MC) && (0 <=? EXPLORED_MAP MC) && (0 <=? BEEN_CLOSE_MAP MC)
  && (0 <=? CURRENT_LOCATION MC)
  && (OBSTACLE_MAP MC <? PROBABILITY_MAP MC) && (EXPLORED_MAP MC <? PROBABILITY_MAP MC)
  && (BEEN_CLOSE_MAP MC <? PROBABILITY_MAP MC) && (CURRENT_LOCATION MC + 1 <? PROBABILITY_MAP MC)
  && negb (OBSTACLE_MAP MC =? CURRENT_LOCATION MC) && negb (OBSTACLE_MAP MC =? CURRENT_LOCATION MC + 1)
  && negb (EXPLORED_MAP MC =? CURRENT_LOCATION MC) && negb (EXPLORED_MAP MC =? CURRENT_LOCATION MC + 1)
  && negb (BEEN_CLOSE_MAP MC =? CURRENT_LOCATION MC) && negb (BEEN_CLOSE_MAP MC =? CURRENT_LOCATION MC + 1)
  && (PROBABILITY_MAP MC <? VOXEL_START MC) && (VOXEL_START MC <=? NON_SEM_CHANNELS MC)
  && (0 <=? num_sem_categories cfg).

Section Steps.

Variable ext : Extern.
Variable cfg : Config.
Variable MC : MapConstants.

(** A call of [forward] returned; its batch element [e] had the previous
    map [prev], warped observation [w] and integer map cell [loc], and
    its returned map is [m]. *)
Inductive forward_fuses (e : nat) (prev : tensor3 tval) (w : warped) (loc : Z * Z)
    (m : tensor3 tval) : Prop :=
| forward_fuses_intro obs oc pd cam pm pp det lmb maps poses d locals n :
    forward ext cfg MC obs oc pd cam pm pp det lmb = Ok (maps, poses, d) ->
    detection_block ext cfg (length obs) det = Ok locals ->
    num_detected_instance locals = Some n ->
    pm !! e = Some prev ->
    maps !! e = Some m ->
    w = warp ext cfg MC oc n (detected_instances_masks locals)
          (agent_of obs pd cam pm pp (prob_feat locals) e) ->
    loc = curr_loc ext cfg (agent_of obs pd cam pm pp (prob_feat locals) e) ->
    forward_fuses e prev w loc m.

(** The caller passes the returned map of one call as the previous map of
    the next. *)
Definition forward_step (e : nat) (prev m : tensor3 tval) : Prop :=
  exists w loc, forward_fuses e prev w loc m.

(** A run of calls in none of which the voxel cell [(j, r, k)] is occupied. *)
Inductive unoccupied_run (e : nat) (j r k : Z) : tensor3 tval -> tensor3 tval -> Prop :=
| unoccupied_nil m : unoccupied_run e j r k m m
| unoccupied_cons prev w loc m m' :
    forward_fuses e prev w loc m ->
    is_occupaid w j r k = false ->
    unoccupied_run e j r k m m' ->
    unoccupied_run e j r k prev m'.

(** The 5 x 5 square of cells centred on [(x, y) = loc]. *)
Definition square5 (loc : Z * Z) (r k : Z) : bool :=
  (loc.2 - 2 <=? r) && (r <=? loc.2 + 2) && (loc.1 - 2 <=? k) && (k <=? loc.1 + 2).

(** The rows and columns the slices [y - 2 : y + 3] and [x - 2 : x + 3] select. *)
Definition marked (loc : Z * Z) (r k : Z) : bool :=
  in_slice (map_side cfg) (loc.2 - 2) (loc.2 + 3) r
  && in_slice (map_side cfg) (loc.1 - 2) (loc.1 + 3) k.

End Steps.

(** ** A small configuration on which the definitions are evaluated

    A 24 x 24 local map at 5 cm per cell, an 8-cell vision range, two
    semantic categories, frames of one row at scale 1.  The library
    functions are instantiated by simple stand-ins: pooling with kernel 1 and
    convolution with a 1 x 1 kernel are identities, the two resampling
    passes are the identity, the pose update adds the delta, the point of
    pixel 0 lands in the grid cell (1, 2, 12), and the logit is replaced by
    its tangent at 1/2. *)

Module Sample.

Definition cfg : Config :=
  {| camera_height := 88 # 100; num_sem_categories := 2; map_size_cm := 240;
     map_resolution := 5; vision_range := 8; global_downscaling := 2; du_scale := 1;
     cat_pred_threshold := 5; exp_pred_threshold := 2; map_pred_threshold := 1;
     max_depth_m := 5; min_obs_height_cm := 0; dilate_obstacles := true;
     dilate_size := 1; close_range_cm := 150; prior_logit := - (1386 # 1000) |}.

Definition MC : MapConstants :=
  {| OBSTACLE_MAP := 0; EXPLORED_MAP := 1; CURRENT_LOCATION := 2; BEEN_CLOSE_MAP := 4;
     PROBABILITY_MAP := 5; VOXEL_START := 6; NON_SEM_CHANNELS := 31 |}.

Definition ext : Extern :=
  {| grid := unit;
     euler_tilt := fun _ => 0%Q;
     rad2deg := fun x => (x * (5729578 # 100000))%Q;
     get_point_cloud_from_z_t := fun d _ r c k => if k =? 1 then d r c else 0%Q;
     transform_camera_view_t := fun p _ _ => p;
     transform_pose_t := fun p _ => p;
     splat_feat_nd := fun _ f i j h => if (i =? 1) && (j =? 2) && (h =? 12) then f 0 else 0%Q;
     AvgPool2d := fun _ p i => p 0 i;
     MaxPool2d := fun _ p i => p 0 i;
     conv2d_ones := fun _ _ p => p;
     logit := fun x => (4 * Qclamp (1 # 1000000) (999999 # 1000000) x - 2)%Q;
     get_new_pose_batch := fun p d =>
       mkPose (pose_x p + pose_x d) (pose_y p + pose_y d) (pose_o p + pose_o d);
     get_grid := fun _ => (tt, tt);
     grid_sample := fun p _ => p |}.

(** A frame: depth 100 cm, semantic scores 0. *)
Definition frame : tensor3 Q := fun c _ _ => if c =? 3 then 100%Q else 0%Q.

(** A map never updated: zero everywhere, the voxel block unassigned. *)
Definition fresh_map : tensor3 tval :=
  fun c _ _ => if (VOXEL_START MC <=? c) && (c <? NON_SEM_CHANNELS MC) then PInf else Fin 0.

(** A map whose been-close flag is set everywhere. *)
Definition close_map : tensor3 tval :=
  fun c _ _ => if c =? BEEN_CLOSE_MAP MC then Fin 1
               else if (VOXEL_START MC <=? c) && (c <? NON_SEM_CHANNELS MC) then PInf
               else Fin 0.

(** A map whose voxel cells all hold the log-odds 3. *)
Definition assigned_map : tensor3 tval :=
  fun c _ _ => if (VOXEL_START MC <=? c) && (c <? NON_SEM_CHANNELS MC) then Fin 3 else Fin 0.

Definition origin : pose := mkPose (6 # 10) (6 # 10) 0.
Definition still : pose := mkPose 0 0 0.

Definition full_mask : plane Q := fun _ _ => 1%Q.

(** One agent, two detections: class 1 with score 0.9, class 0 with 0.3. *)
Definition det : Detections :=
  {| scores := [[9 # 10; 3 # 10]]; classes := [[1; 0]];
     masks := [[full_mask; full_mask]]; relevance := [1%Q; 7 # 10] |}.

(** One agent, no detection above the confirmation threshold. *)
Definition det_weak : Detections :=
  {| scores := [[3 # 10]]; classes := [[0]]; masks := [[full_mask]];
     relevance := [1%Q; 7 # 10] |}.

(** Two agents: the first has no confirmed detection, the second has one. *)
Definition det_pair : Detections :=
  {| scores := [[3 # 10]; [9 # 10]]; classes := [[0]; [1]];
     masks := [[full_mask]; [full_mask]]; relevance := [1%Q; 7 # 10] |}.

(** The rows of [det_pair], each as the detections of a batch of one. *)
Definition det_second : Detections :=
  {| scores := [[9 # 10]]; classes := [[1]]; masks := [[full_mask]];
     relevance := [1%Q; 7 # 10] |}.

Definition lmb : list (Z * Z * Z * Z) := [(100, 124, 200, 224)].

(** An L-shaped mask: the cells (0, 0), (0, 1), (0, 2) and (1, 0). *)
Definition l_mask : plane Q :=
  fun r k => if ((r =? 0) && (0 <=? k) && (k <=? 2)) || ((r =? 1) && (k =? 0)) then 1%Q else 0%Q.

(** The call [forward(frame, still, None, pm, origin, det_weak, lmb)] on a
    batch of one with previous map [pm]: its row of [prob_feat], the
    resolved inputs of the batch element, its warped observation, its
    integer map cell and its returned map. *)
Definition pf_weak : list (Z -> Q) :=
  [prob_feat_row ext cfg [full_mask] [((3 # 10) * 1)%Q]].
Definition agent (pm : tensor3 tval) : agent_in :=
  agent_of [frame] [still] None [pm] [origin] pf_weak 0.
Definition seen (pm : tensor3 tval) : warped := warp ext cfg MC 6 0 [] (agent pm).
Definition cell : Z * Z := curr_loc ext cfg (agent fresh_map).
Definition step (pm : tensor3 tval) : tensor3 tval := current_map ext cfg MC 6 0 [] (agent pm).

End Sample.

(** ** The instance dictionary the specification asks for

    Following the specification: for each confirmed detection whose warped
    mask is non-empty, one record with the axis-aligned bounding box of the
    mask and the box's centre in local map cells, both shifted by the origin of
    the local window, grouped by class id in detection order. *)

(** [box = (x1, x2, y1, y2)] is the tight axis-aligned box around the
    non-zero cells of the [M] x [M] mask: rows [x1..x2], columns [y1..y2]. *)
Definition is_bounding_box (M : Z) (mask : plane Q) (box : Z * Z * Z * Z) : Prop :=
  let '(x1, x2, y1, y2) := box in
  (forall r k, 0 <= r < M -> 0 <= k < M -> ~ (mask r k == 0)%Q ->
               x1 <= r <= x2 /\ y1 <= k <= y2)
  /\ (exists k, 0 <= x1 < M /\ 0 <= k < M /\ ~ (mask x1 k == 0)%Q)
  /\ (exists k, 0 <= x2 < M /\ 0 <= k < M /\ ~ (mask x2 k == 0)%Q)
  /\ (exists r, 0 <= r < M /\ 0 <= y1 < M /\ ~ (mask r y1 == 0)%Q)
  /\ (exists r, 0 <= r < M /\ 0 <= y2 < M /\ ~ (mask r y2 == 0)%Q).

Definition nonempty_mask (M : Z) (mask : plane Q) : bool :=
  0 <? Z.of_nat (length (nonzero M mask)).

(** [obj] is the record of a detection of class [c] and score [s] with warped
    mask [mask], in a window whose rows start at [origin.1.1.1] and whose
    columns start at [origin.1.2] of the global map. *)
Definition describes (M : Z) (origin : Z * Z * Z * Z) (mask : plane Q) (c : Z) (s : Q)
    (obj : ins_obj) : Prop :=
  class obj = c /\ score obj = s
  /\ exists x1 x2 y1 y2,
      is_bounding_box M mask (x1, x2, y1, y2)
      /\ bb obj = (x1 + origin.1.1.1, x2 + origin.1.1.1, y1 + origin.1.2, y2 + origin.1.2)
      /\ center obj = ((inject_Z (x1 + x2) / 2 + inject_Z origin.1.1.1)%Q,
                       (inject_Z (y1 + y2) / 2 + inject_Z origin.1.2)%Q).

(** The confirmed detection [i] has class [k] and a non-empty warped mask. *)
Definition selected (M : Z) (ist : tensor3 Q) (cls : list Z) (k i : Z) : bool :=
  nonempty_mask M (ist i) && (nth (Z.to_nat i) cls 0 =? k).

(** The dictionary [d] holds, for every class id, the records of the
    detections among [turns] selected for that class, in order, and has no
    other key. *)
Definition dict_holds (cfg : Config) (origin : Z * Z * Z * Z) (ist : tensor3 Q)
    (cls : list Z) (scs : list Q) (turns : list Z) (d : gmap Z (list ins_obj)) : Prop :=
  forall k,
    (0 <= k < num_sem_categories cfg ->
     exists objs,
       d !! k = Some objs
       /\ Forall2 (fun i obj => describes (map_side cfg) origin (ist i)
                                  (nth (Z.to_nat i) cls 0) (nth (Z.to_nat i) scs 0%Q) obj)
                  (List.filter (selected (map_side cfg) ist cls k) turns) objs)
    /\ (~ 0 <= k < num_sem_categories cfg -> d !! k = None).

(** The third component of what a call returned. *)
Definition returned_dict {A B : Type} (res : result (A * B * option (gmap Z (list ins_obj))))
    : option (option (gmap Z (list ins_obj))) :=
  match res with
  | Ok (_, _, d) => Some d
  | Raise _ => None
  end.

(** ** Further definitions

    Notions used to state what the rest of the module does. *)

(** The indices the slice [y - 2 : y + 3] selects on an axis of length [M]
    (at least 5): the five around [y], clipped to the axis, when [y >= 2];
    none when [-3 <= y <= 1], where the start is negative and counts from the
    end of the axis while the stop does not; the five around [M + y] when
    [y <= -4], where both count from the end. *)
Definition slice5 (M y r : Z) : Prop :=
  0 <= r < M
  /\ ((2 <= y /\ y - 2 <= r < y + 3) \/ (y <= -4 /\ M + y - 2 <= r < M + y + 3)).

(** A run of calls seen from batch element [e]: each returned map is the
    previous map of the next call; the warped observations are listed in
    order. *)
Inductive forward_run (ext : Extern) (cfg : Config) (MC : MapConstants) (e : nat)
    : tensor3 tval -> list warped -> tensor3 tval -> Prop :=
| run_nil m : forward_run ext cfg MC e m [] m
| run_cons prev w loc m ws m' :
    forward_fuses ext cfg MC e prev w loc m ->
    forward_run ext cfg MC e m ws m' ->
    forward_run ext cfg MC e prev (w :: ws) m'.

(** A detection bundle whose confirmed detection has class id 2: the
    relevance table lists it, the two semantic categories of [Sample.cfg] do
    not. *)
Definition det_unlisted : Detections :=
  {| scores := [[9 # 10]]; classes := [[2]]; masks := [[Sample.full_mask]];
     relevance := [1%Q; 7 # 10; 1%Q] |}.

(** The keys of [d] are the category ids [0 .. num_sem_categories - 1]. *)
Definition category_keys (cfg : Config) (d : gmap Z (list ins_obj)) : Prop :=
  forall k, is_Some (d !! k) <-> 0 <= k < num_sem_categories cfg.

(** A map whose been-close flag is set everywhere and whose voxel cells
    all hold the log-odds 3. *)
Definition close_assigned_map : tensor3 tval :=
  fun c _ _ => if c =? BEEN_CLOSE_MAP Sample.MC then Fin 1
               else if (VOXEL_START Sample.MC <=? c) && (c <? NON_SEM_CHANNELS Sample.MC)
               then Fin 3 else Fin 0.

(** The call of [Sample] with the agent 6 cm from the border of the local
    map along y: its map cell is (12, 1). *)
Definition border_origin : pose := mkPose (6 # 10) (6 # 100) 0.
Definition border_agent (pm : tensor3 tval) : agent_in :=
  agent_of [Sample.frame] [Sample.still] None [pm] [border_origin] Sample.pf_weak 0.
Definition border_seen (pm : tensor3 tval) : warped :=
  warp Sample.ext Sample.cfg Sample.MC 6 0 [] (border_agent pm).
Definition border_step (pm : tensor3 tval) : tensor3 tval :=
  current_map Sample.ext Sample.cfg Sample.MC 6 0 [] (border_agent pm).

(** * Properties *)

(** ** Numbers, slices, ranges *)

Lemma Qgtb_true (a b : Q) : Qgtb a b = true <-> (b < a)%Q.
Proof.
  unfold Qgtb. rewrite negb_true_iff. split.
  - intros H. apply Qnot_le_lt. intros Hle. apply Qle_bool_iff in Hle. congruence.
  - intros H. destruct (Qle_bool a b) eqn:E; [|reflexivity].
    apply Qle_bool_iff in E. exfalso. apply (Qlt_not_le _ _ H E).
Qed.

(** "Occupied this step": the warped occupancy count exceeds 0.5. *)
Lemma is_occupaid_iff (w : warped) (j r k : Z) :
  is_occupaid w j r k = true <-> (1 # 2 < occupaid_voxel_st w j r k)%Q.
Proof. unfold is_occupaid. apply Qgtb_true. Qed.

Lemma Qclamp_bounds (lo hi x : Q) : (lo <= hi)%Q -> (lo <= Qclamp lo hi x)%Q /\ (Qclamp lo hi x <= hi)%Q.
Proof.
  intros H. unfold Qclamp. split.
  - apply Q.min_glb; [apply Q.le_max_r | exact H].
  - apply Q.le_min_r.
Qed.

Lemma Qclamp_within (lo hi x : Q) : (lo <= x)%Q -> (x <= hi)%Q -> (Qclamp lo hi x == x)%Q.
Proof.
  intros H1 H2. unfold Qclamp.
  rewrite (Q.max_l x lo) by exact H1. apply Q.min_l. exact H2.
Qed.

Lemma tclamp_in_range (lo hi : Q) (v : tval) :
  (lo <= hi)%Q -> isnan v = false -> in_range lo hi (tclamp lo hi v).
Proof.
  intros H Hn. destruct v as [q| | |]; simpl in *; try discriminate.
  - exists (Qclamp lo hi q). split; [reflexivity|]. apply Qclamp_bounds, H.
  - exists hi. split; [reflexivity|]. split; [exact H | apply Qle_refl].
  - exists lo. split; [reflexivity|]. split; [apply Qle_refl | exact H].
Qed.

Lemma tmax_ge_l (a : tval) (q : Q) : isnan a = false -> tleb a (tmax a (Fin q)) = true.
Proof.
  destruct a as [x| | |]; simpl; intros H; try discriminate; try reflexivity.
  apply Qle_bool_iff, Q.le_max_l.
Qed.

(** A flag equal to one stays equal to one under the maximum with a value
    clamped to [0, 1]. *)
Lemma tmax_flag_one (a : tval) (x : Q) :
  teqb a (Fin 1) = true -> teqb (tmax a (Fin (Qclamp 0 1 x))) (Fin 1) = true.
Proof.
  destruct a as [q| | |]; simpl; try discriminate.
  intros H. apply Qeq_bool_iff in H. apply Qeq_bool_iff.
  destruct (Qclamp_bounds 0 1 x) as [_ Hle]; [discriminate|].
  rewrite H. apply Q.max_l. exact Hle.
Qed.

Lemma slice_bound_nonneg (len i : Z) : 0 <= i -> slice_bound len i = Z.max 0 (Z.min len i).
Proof. intros H. unfold slice_bound. destruct (i <? 0) eqn:E; [lia | reflexivity]. Qed.

Lemma in_slice_iff (len a b i : Z) :
  0 <= a -> 0 <= b -> in_slice len a b i = true <-> 0 <= i < len /\ a <= i < b.
Proof.
  intros Ha Hb. unfold in_slice.
  rewrite !andb_true_iff, !Z.leb_le, !Z.ltb_lt, !slice_bound_nonneg by assumption. lia.
Qed.

Lemma in_py_range (a b c : Z) : In c (py_range a b) <-> a <= c < b.
Proof.
  unfold py_range. rewrite in_map_iff. split.
  - intros (i & <- & Hi). apply in_seq in Hi. lia.
  - intros H. exists (Z.to_nat (c - a)). split; [lia|]. apply in_seq. lia.
Qed.

Lemma existsb_eqb (c : Z) (l : list Z) : existsb (Z.eqb c) l = true <-> In c l.
Proof.
  rewrite existsb_exists. split.
  - intros (x & Hx & E). apply Z.eqb_eq in E. subst. exact Hx.
  - intros H. exists c. split; [exact H | apply Z.eqb_refl].
Qed.

Lemma layout_facts (cfg : Config) (MC : MapConstants) :
  layout_ok cfg MC = true ->
  (0 <= OBSTACLE_MAP MC < PROBABILITY_MAP MC
   /\ 0 <= EXPLORED_MAP MC < PROBABILITY_MAP MC
   /\ 0 <= BEEN_CLOSE_MAP MC < PROBABILITY_MAP MC
   /\ 0 <= CURRENT_LOCATION MC /\ CURRENT_LOCATION MC + 1 < PROBABILITY_MAP MC)
  /\ (OBSTACLE_MAP MC <> CURRENT_LOCATION MC /\ OBSTACLE_MAP MC <> CURRENT_LOCATION MC + 1
      /\ EXPLORED_MAP MC <> CURRENT_LOCATION MC /\ EXPLORED_MAP MC <> CURRENT_LOCATION MC + 1
      /\ BEEN_CLOSE_MAP MC <> CURRENT_LOCATION MC /\ BEEN_CLOSE_MAP MC <> CURRENT_LOCATION MC + 1)
  /\ PROBABILITY_MAP MC < VOXEL_START MC <= NON_SEM_CHANNELS MC
  /\ 0 <= num_sem_categories cfg.
Proof.
  unfold layout_ok. rewrite !andb_true_iff, !negb_true_iff, !Z.leb_le, !Z.ltb_lt, !Z.eqb_neq.
  lia.
Qed.

(** ** The fused map, cell by cell *)

Section FusionFacts.

Variable ext : Extern.
Variable cfg : Config.
Variable MC : MapConstants.
Hypothesis Hlayout : layout_ok cfg MC = true.

Variable prev : tensor3 tval.
Variable w : warped.

Local Abbreviation ori := (ori_channel_num cfg MC).

Lemma idx_no_prob_iff (c : Z) :
  existsb (Z.eqb c) (idx_no_prob cfg MC) = true
  <-> 0 <= c < PROBABILITY_MAP MC \/ NON_SEM_CHANNELS MC <= c < ori.
Proof.
  unfold idx_no_prob, ori_channel_num. rewrite existsb_eqb, in_app_iff, !in_py_range. tauto.
Qed.

Lemma translated_clamped_flag (c r k : Z) :
  0 <= c < PROBABILITY_MAP MC \/ NON_SEM_CHANNELS MC <= c < ori ->
  translated_clamped cfg MC w c r k = Qclamp 0 1 (translated w c r k).
Proof.
  intros H. unfold translated_clamped.
  destruct (existsb (Z.eqb c) (idx_no_prob cfg MC)) eqn:E; [reflexivity|].
  apply idx_no_prob_iff in H. congruence.
Qed.

Lemma translated_clamped_other (c r k : Z) :
  PROBABILITY_MAP MC <= c < NON_SEM_CHANNELS MC ->
  translated_clamped cfg MC w c r k = translated w c r k.
Proof.
  intros H. unfold translated_clamped.
  destruct (existsb (Z.eqb c) (idx_no_prob cfg MC)) eqn:E; [|reflexivity].
  apply idx_no_prob_iff in E. lia.
Qed.

(** The been-close test of line 601 reads the max-fused been-close flag. *)
Lemma confident_no_obj_eq (r k : Z) :
  confident_no_obj cfg MC prev w r k
  = teqb (tmax (prev (BEEN_CLOSE_MAP MC) r k)
               (Fin (Qclamp 0 1 (translated w (BEEN_CLOSE_MAP MC) r k)))) (Fin 1).
Proof.
  destruct (layout_facts _ _ Hlayout) as (H1 & H2 & H3 & H4).
  unfold confident_no_obj, prob_clamped, prob_summed, assign, max_fused.
  replace (BEEN_CLOSE_MAP MC =? PROBABILITY_MAP MC) with false by (symmetry; apply Z.eqb_neq; lia).
  rewrite translated_clamped_flag by lia. reflexivity.
Qed.

(** Channels in the voxel slice, and those of the location slice. *)
Lemma voxel_slice_iff (c : Z) :
  in_slice ori (VOXEL_START MC) (NON_SEM_CHANNELS MC) c = true
  <-> VOXEL_START MC <= c < NON_SEM_CHANNELS MC.
Proof.
  destruct (layout_facts _ _ Hlayout) as (H1 & H2 & H3 & H4).
  rewrite in_slice_iff by lia. unfold ori_channel_num. lia.
Qed.

Lemma location_slice_iff (c : Z) :
  in_slice ori (CURRENT_LOCATION MC) (CURRENT_LOCATION MC + 2) c = true
  <-> c = CURRENT_LOCATION MC \/ c = CURRENT_LOCATION MC + 1.
Proof.
  destruct (layout_facts _ _ Hlayout) as (H1 & H2 & H3 & H4).
  rewrite in_slice_iff by lia. unfold ori_channel_num. lia.
Qed.

Variable loc : Z * Z.

Lemma location_marked_cell (c r k : Z) :
  location_marked ext cfg MC prev w loc c r k
  = if ((c =? CURRENT_LOCATION MC) || (c =? CURRENT_LOCATION MC + 1)) && marked cfg loc r k
    then Fin 1
    else location_reset ext cfg MC prev w c r k.
Proof.
  unfold location_marked, fill, assign, marked.
  pose proof (location_slice_iff c) as Hs.
  destruct (in_slice ori (CURRENT_LOCATION MC) (CURRENT_LOCATION MC + 2) c) eqn:E;
    destruct (Z.eqb_spec c (CURRENT_LOCATION MC)) as [E1|E1];
    destruct (Z.eqb_spec c (CURRENT_LOCATION MC + 1)) as [E2|E2];
    simpl; try rewrite <- andb_assoc; try reflexivity; exfalso.
  - destruct (proj1 Hs eq_refl); contradiction.
  - assert (false = true) by (apply Hs; left; exact E1). discriminate.
  - assert (false = true) by (apply Hs; left; exact E1). discriminate.
  - assert (false = true) by (apply Hs; right; exact E2). discriminate.
Qed.

Lemma location_reset_cell (c r k : Z) :
  location_reset ext cfg MC prev w c r k
  = if c =? CURRENT_LOCATION MC then Fin 0
    else if (VOXEL_START MC <=? c) && (c <? NON_SEM_CHANNELS MC)
         then updated ext cfg MC prev w (c - VOXEL_START MC) r k
         else prob_overridden cfg MC prev w c r k.
Proof.
  unfold location_reset, voxel_written, fill, assign.
  destruct (c =? CURRENT_LOCATION MC); [reflexivity|].
  pose proof (voxel_slice_iff c) as Hs.
  destruct (in_slice ori (VOXEL_START MC) (NON_SEM_CHANNELS MC) c) eqn:E;
    destruct ((VOXEL_START MC <=? c) && (c <? NON_SEM_CHANNELS MC)) eqn:E'; try reflexivity; exfalso.
  - rewrite andb_false_iff, Z.leb_gt, Z.ltb_ge in E'. destruct (proj1 Hs eq_refl). lia.
  - rewrite andb_true_iff, Z.leb_le, Z.ltb_lt in E'. apply Hs in E'. discriminate.
Qed.

Lemma fused_flag_cell (c r k : Z) :
  c = OBSTACLE_MAP MC \/ c = EXPLORED_MAP MC \/ c = BEEN_CLOSE_MAP MC
  \/ NON_SEM_CHANNELS MC <= c < ori ->
  location_marked ext cfg MC prev w loc c r k
  = tmax (prev c r k) (Fin (Qclamp 0 1 (translated w c r k))).
Proof.
  intros Hc. destruct (layout_facts _ _ Hlayout) as (H1 & H2 & H3 & H4).
  rewrite location_marked_cell, location_reset_cell.
  replace (c =? CURRENT_LOCATION MC) with false by (symmetry; apply Z.eqb_neq; lia).
  replace (c =? CURRENT_LOCATION MC + 1) with false by (symmetry; apply Z.eqb_neq; lia).
  replace ((VOXEL_START MC <=? c) && (c <? NON_SEM_CHANNELS MC)) with false
    by (symmetry; rewrite andb_false_iff, Z.leb_gt, Z.ltb_ge; lia).
  simpl. unfold prob_overridden, prob_clamped, prob_summed, fill, assign, max_fused.
  replace (c =? PROBABILITY_MAP MC) with false by (symmetry; apply Z.eqb_neq; lia).
  simpl. rewrite translated_clamped_flag by lia. reflexivity.
Qed.

Lemma fused_prob_cell (r k : Z) :
  location_marked ext cfg MC prev w loc (PROBABILITY_MAP MC) r k
  = if confident_no_obj cfg MC prev w r k then Fin (-10)
    else tclamp (-10) 10 (tadd (prev (PROBABILITY_MAP MC) r k)
                               (Fin (translated w (PROBABILITY_MAP MC) r k))).
Proof.
  destruct (layout_facts _ _ Hlayout) as (H1 & H2 & H3 & H4).
  rewrite location_marked_cell, location_reset_cell.
  replace (PROBABILITY_MAP MC =? CURRENT_LOCATION MC) with false by (symmetry; apply Z.eqb_neq; lia).
  replace (PROBABILITY_MAP MC =? CURRENT_LOCATION MC + 1) with false by (symmetry; apply Z.eqb_neq; lia).
  replace ((VOXEL_START MC <=? PROBABILITY_MAP MC) && (PROBABILITY_MAP MC <? NON_SEM_CHANNELS MC))
    with false by (symmetry; rewrite andb_false_iff, Z.leb_gt, Z.ltb_ge; lia).
  simpl. unfold prob_overridden, prob_clamped, prob_summed, fill, assign.
  rewrite Z.eqb_refl. simpl.
  rewrite translated_clamped_other by lia. reflexivity.
Qed.

Lemma fused_voxel_cell (j r k : Z) :
  0 <= j -> VOXEL_START MC + j < NON_SEM_CHANNELS MC ->
  location_marked ext cfg MC prev w loc (VOXEL_START MC + j) r k
  = updated ext cfg MC prev w j r k.
Proof.
  intros Hj Hj'. destruct (layout_facts _ _ Hlayout) as (H1 & H2 & H3 & H4).
  rewrite location_marked_cell, location_reset_cell.
  replace (VOXEL_START MC + j =? CURRENT_LOCATION MC) with false by (symmetry; apply Z.eqb_neq; lia).
  replace (VOXEL_START MC + j =? CURRENT_LOCATION MC + 1) with false by (symmetry; apply Z.eqb_neq; lia).
  replace ((VOXEL_START MC <=? VOXEL_START MC + j) && (VOXEL_START MC + j <? NON_SEM_CHANNELS MC))
    with true by (symmetry; rewrite andb_true_iff, Z.leb_le, Z.ltb_lt; lia).
  simpl. replace (VOXEL_START MC + j - VOXEL_START MC) with j by lia. reflexivity.
Qed.

Lemma fused_location_cell (r k : Z) :
  location_marked ext cfg MC prev w loc (CURRENT_LOCATION MC) r k
  = if marked cfg loc r k then Fin 1 else Fin 0.
Proof.
  rewrite location_marked_cell, location_reset_cell, Z.eqb_refl. reflexivity.
Qed.

Lemma fused_trail_cell (r k : Z) :
  location_marked ext cfg MC prev w loc (CURRENT_LOCATION MC + 1) r k
  = if marked cfg loc r k then Fin 1
    else tmax (prev (CURRENT_LOCATION MC + 1) r k)
              (Fin (Qclamp 0 1 (translated w (CURRENT_LOCATION MC + 1) r k))).
Proof.
  destruct (layout_facts _ _ Hlayout) as (H1 & H2 & H3 & H4).
  rewrite location_marked_cell, location_reset_cell.
  rewrite Z.eqb_refl, orb_true_r. simpl.
  destruct (marked cfg loc r k); [reflexivity|].
  replace (CURRENT_LOCATION MC + 1 =? CURRENT_LOCATION MC) with false by (symmetry; apply Z.eqb_neq; lia).
  replace ((VOXEL_START MC <=? CURRENT_LOCATION MC + 1) && (CURRENT_LOCATION MC + 1 <? NON_SEM_CHANNELS MC))
    with false by (symmetry; rewrite andb_false_iff, Z.leb_gt, Z.ltb_ge; lia).
  unfold prob_overridden, prob_clamped, prob_summed, fill, assign, max_fused.
  replace (CURRENT_LOCATION MC + 1 =? PROBABILITY_MAP MC) with false by (symmetry; apply Z.eqb_neq; lia).
  simpl. rewrite translated_clamped_flag by lia. reflexivity.
Qed.

End FusionFacts.

(** ** What a returning call computed *)

Section ForwardFacts.

Variable ext : Extern.
Variable cfg : Config.
Variable MC : MapConstants.

Lemma forward_inv obs oc pd cam pm pp det lmb maps poses d :
  forward ext cfg MC obs oc pd cam pm pp det lmb = Ok (maps, poses, d) ->
  exists locals n,
    detection_block ext cfg (length obs) det = Ok locals
    /\ num_detected_instance locals = Some n
    /\ maps = map (current_map ext cfg MC oc n (detected_instances_masks locals))
                  (map (agent_of obs pd cam pm pp (prob_feat locals)) (seq 0 (length obs)))
    /\ poses = map (current_pose ext)
                   (map (agent_of obs pd cam pm pp (prob_feat locals)) (seq 0 (length obs)))
    /\ (if 0 <? n
        then exists dict,
            instance_loop cfg lmb
              (instances_st (warp ext cfg MC oc n (detected_instances_masks locals)
                               (agent_of obs pd cam pm pp (prob_feat locals) 0)))
              (detected_instances_classes locals) (detected_instances_scores locals)
              (empty_instances_dict cfg) (py_range 0 n) = Ok dict
            /\ d = Some dict
        else d = None).
Proof.
  unfold forward. intros Hf.
  destruct (detection_block ext cfg (length obs) det) as [locals|] eqn:Hd; [|discriminate].
  cbn [mbind result_bind Py.bind] in Hf.
  destruct (num_detected_instance locals) as [n|] eqn:Hn; [|discriminate].
  cbn [read_local mbind result_bind Py.bind] in Hf.
  exists locals, n. split; [reflexivity|]. split; [exact Hn|].
  destruct (0 <? n).
  - destruct (instance_loop _ _ _ _ _ _ _) as [dict|]; [|discriminate].
    cbn in Hf. injection Hf as <- <- <-. repeat split. exists dict. split; reflexivity.
  - cbn in Hf. injection Hf as <- <- <-. repeat split.
Qed.

Lemma agents_lookup obs pd cam pm pp pf (e : nat) (x : agent_in) :
  map (agent_of obs pd cam pm pp pf) (seq 0 (length obs)) !! e = Some x ->
  x = agent_of obs pd cam pm pp pf e.
Proof.
  intros H. apply list_lookup_fmap_Some in H as (i & -> & Hi).
  apply lookup_seq in Hi as [-> _]. reflexivity.
Qed.

Lemma forward_fuses_map e prev w loc m :
  forward_fuses ext cfg MC e prev w loc m -> m = location_marked ext cfg MC prev w loc.
Proof.
  destruct 1 as [obs oc pd cam pm pp det lmb maps poses d locals n Hf Hd Hn Hp Hm Hw Hl].
  apply forward_inv in Hf as (locals' & n' & Hd' & Hn' & -> & _).
  rewrite Hd in Hd'. injection Hd' as <-. rewrite Hn in Hn'. injection Hn' as <-.
  apply list_lookup_fmap_Some in Hm as (x & -> & Hx).
  apply agents_lookup in Hx. subst x w loc.
  unfold current_map. f_equal.
  unfold agent_of at 1. simpl. apply nth_lookup_Some with (d := fun _ _ _ => Fin 0) in Hp.
  exact Hp.
Qed.

End ForwardFacts.

(** ** The voxel update, case by case *)

Section VoxelFacts.

Variable ext : Extern.
Variable cfg : Config.
Variable MC : MapConstants.
Variable prev : tensor3 tval.
Variable w : warped.

Lemma updated_case2_occupied_assigned (j r k : Z) :
  is_occupaid w j r k = true ->
  isinf (prev (VOXEL_START MC + j) r k) = false ->
  updated_case2 ext cfg MC prev w j r k
  = tsub (tadd (prev (VOXEL_START MC + j) r k) (Fin (voxel_logit ext cfg MC w j r k)))
         (Fin (prior_logit cfg)).
Proof.
  intros Ho He. unfold updated_case2, assign, need_addition_logit, is_pre_empty, prev_voxel.
  rewrite Ho, He. reflexivity.
Qed.

Lemma updated_case2_occupied_empty (j r k : Z) :
  is_occupaid w j r k = true ->
  isinf (prev (VOXEL_START MC + j) r k) = true ->
  updated_case2 ext cfg MC prev w j r k = Fin (voxel_logit ext cfg MC w j r k).
Proof.
  intros Ho He.
  unfold updated_case2, updated_case1, assign, need_addition_logit, need_assign_logit,
    is_pre_empty, prev_voxel.
  rewrite Ho, He. reflexivity.
Qed.

Lemma updated_case2_unoccupied (j r k : Z) :
  is_occupaid w j r k = false ->
  updated_case2 ext cfg MC prev w j r k = prev (VOXEL_START MC + j) r k.
Proof.
  intros Ho.
  unfold updated_case2, updated_case1, assign, need_addition_logit, need_assign_logit, prev_voxel.
  rewrite Ho. reflexivity.
Qed.

Lemma updated_clamped_eq (j r k : Z) :
  updated_clamped ext cfg MC prev w j r k
  = if isinf (updated_case2 ext cfg MC prev w j r k)
    then updated_case2 ext cfg MC prev w j r k
    else tclamp (-10) 10 (updated_case2 ext cfg MC prev w j r k).
Proof.
  unfold updated_clamped, assign, is_post_occupaid.
  destruct (isinf (updated_case2 ext cfg MC prev w j r k)); reflexivity.
Qed.

Lemma updated_eq (j r k : Z) :
  updated ext cfg MC prev w j r k
  = if confident_no_obj cfg MC prev w r k && negb (isinf (updated_case2 ext cfg MC prev w j r k))
    then Fin (-10)
    else updated_clamped ext cfg MC prev w j r k.
Proof. reflexivity. Qed.

(** An occupied cell holds a value after the case split, never an infinity. *)
Lemma occupied_not_inf (j r k : Z) :
  is_occupaid w j r k = true -> isinf (updated_case2 ext cfg MC prev w j r k) = false.
Proof.
  intros Ho. destruct (isinf (prev (VOXEL_START MC + j) r k)) eqn:He.
  - rewrite updated_case2_occupied_empty by assumption. reflexivity.
  - rewrite updated_case2_occupied_assigned by assumption.
    destruct (prev (VOXEL_START MC + j) r k); simpl in *; congruence.
Qed.

Lemma updated_case2_not_nan (j r k : Z) :
  isnan (prev (VOXEL_START MC + j) r k) = false ->
  isnan (updated_case2 ext cfg MC prev w j r k) = false.
Proof.
  intros Hn. destruct (is_occupaid w j r k) eqn:Ho.
  - destruct (isinf (prev (VOXEL_START MC + j) r k)) eqn:He.
    + rewrite updated_case2_occupied_empty by assumption. reflexivity.
    + rewrite updated_case2_occupied_assigned by assumption.
      destruct (prev (VOXEL_START MC + j) r k); simpl in *; congruence.
  - rewrite updated_case2_unoccupied by assumption. exact Hn.
Qed.

(** A cell of the updated block is an infinity or, unless the previous
    entry was NaN, a number of [-10, 10]. *)
Lemma updated_bounded (j r k : Z) :
  isnan (prev (VOXEL_START MC + j) r k) = false ->
  isinf (updated ext cfg MC prev w j r k) = false ->
  in_range (-10) 10 (updated ext cfg MC prev w j r k).
Proof.
  intros Hn Hi. rewrite updated_eq in *.
  destruct (confident_no_obj cfg MC prev w r k && negb (isinf (updated_case2 ext cfg MC prev w j r k))).
  - exists (-10)%Q. split; [reflexivity|]. split; discriminate.
  - rewrite updated_clamped_eq in *.
    destruct (isinf (updated_case2 ext cfg MC prev w j r k)) eqn:E; [congruence|].
    apply tclamp_in_range; [discriminate|]. apply updated_case2_not_nan, Hn.
Qed.

End VoxelFacts.

(** ** One call, then runs of calls *)

Section StepFacts.

Variable ext : Extern.
Variable cfg : Config.
Variable MC : MapConstants.
Hypothesis Hlayout : layout_ok cfg MC = true.

(** The been-close test of a call is the test of the flag it returns. *)
Lemma confident_is_returned_flag e prev w loc m (r k : Z) :
  forward_fuses ext cfg MC e prev w loc m ->
  confident_no_obj cfg MC prev w r k = teqb (m (BEEN_CLOSE_MAP MC) r k) (Fin 1).
Proof.
  intros H. apply forward_fuses_map in H. subst m.
  rewrite (fused_flag_cell ext cfg MC Hlayout) by tauto.
  apply confident_no_obj_eq, Hlayout.
Qed.

Lemma flag_one_overrides e prev m (r k : Z) :
  forward_step ext cfg MC e prev m ->
  teqb (m (BEEN_CLOSE_MAP MC) r k) (Fin 1) = true ->
  m (PROBABILITY_MAP MC) r k = Fin (-10).
Proof.
  intros (w & loc & H) Hf. rewrite <- (confident_is_returned_flag _ _ _ _ _ _ _ H) in Hf.
  apply forward_fuses_map in H. subst m.
  rewrite (fused_prob_cell ext cfg MC Hlayout), Hf. reflexivity.
Qed.

Lemma flag_one_persists e prev m (r k : Z) :
  forward_step ext cfg MC e prev m ->
  teqb (prev (BEEN_CLOSE_MAP MC) r k) (Fin 1) = true ->
  teqb (m (BEEN_CLOSE_MAP MC) r k) (Fin 1) = true.
Proof.
  intros (w & loc & H) Hf. apply forward_fuses_map in H. subst m.
  rewrite (fused_flag_cell ext cfg MC Hlayout) by tauto.
  apply tmax_flag_one, Hf.
Qed.

Lemma flag_one_run e m1 m2 (r k : Z) :
  rtc (forward_step ext cfg MC e) m1 m2 ->
  teqb (m1 (BEEN_CLOSE_MAP MC) r k) (Fin 1) = true ->
  teqb (m2 (BEEN_CLOSE_MAP MC) r k) (Fin 1) = true.
Proof.
  induction 1 as [|x y z Hxy _ IH]; intros Hf; [exact Hf|].
  apply IH. eapply flag_one_persists; eassumption.
Qed.

(** The probability and voxel channels never turn into NaN. *)
Lemma step_not_nan e prev m (c r k : Z) :
  forward_step ext cfg MC e prev m ->
  c = PROBABILITY_MAP MC \/ VOXEL_START MC <= c < NON_SEM_CHANNELS MC ->
  isnan (prev c r k) = false -> isnan (m c r k) = false.
Proof.
  intros (w & loc & H) Hc Hn. apply forward_fuses_map in H. subst m.
  destruct Hc as [-> | Hc].
  - rewrite (fused_prob_cell ext cfg MC Hlayout).
    destruct (confident_no_obj cfg MC prev w r k); [reflexivity|].
    destruct (prev (PROBABILITY_MAP MC) r k); simpl in *; congruence.
  - replace c with (VOXEL_START MC + (c - VOXEL_START MC)) in * by lia.
    rewrite (fused_voxel_cell ext cfg MC Hlayout) by lia.
    rewrite updated_eq.
    destruct (confident_no_obj cfg MC prev w r k && _); [reflexivity|].
    rewrite updated_clamped_eq.
    pose proof (updated_case2_not_nan ext cfg MC prev w _ r k Hn) as Hu.
    destruct (updated_case2 ext cfg MC prev w (c - VOXEL_START MC) r k); simpl in *; congruence.
Qed.

Lemma run_not_nan e m0 m1 (c r k : Z) :
  rtc (forward_step ext cfg MC e) m0 m1 ->
  c = PROBABILITY_MAP MC \/ VOXEL_START MC <= c < NON_SEM_CHANNELS MC ->
  isnan (m0 c r k) = false -> isnan (m1 c r k) = false.
Proof.
  induction 1 as [|x y z Hxy _ IH]; intros Hc Hn; [exact Hn|].
  apply IH; [exact Hc|]. eapply step_not_nan; eassumption.
Qed.

Lemma step_bounded e prev m (c r k : Z) :
  forward_step ext cfg MC e prev m ->
  isnan (prev c r k) = false ->
  (c = PROBABILITY_MAP MC -> in_range (-10) 10 (m c r k))
  /\ (VOXEL_START MC <= c < NON_SEM_CHANNELS MC -> isinf (m c r k) = false ->
      in_range (-10) 10 (m c r k)).
Proof.
  intros (w & loc & H) Hn. apply forward_fuses_map in H. subst m. split.
  - intros ->. rewrite (fused_prob_cell ext cfg MC Hlayout).
    destruct (confident_no_obj cfg MC prev w r k).
    + exists (-10)%Q. split; [reflexivity|]. split; discriminate.
    + apply tclamp_in_range; [discriminate|].
      destruct (prev (PROBABILITY_MAP MC) r k); simpl in *; congruence.
  - intros Hc. replace c with (VOXEL_START MC + (c - VOXEL_START MC)) in * by lia.
    rewrite (fused_voxel_cell ext cfg MC Hlayout) by lia.
    apply updated_bounded, Hn.
Qed.

End StepFacts.

(** ** The calls of the small configuration *)

Lemma sample_call (pm : tensor3 tval) :
  forward_fuses Sample.ext Sample.cfg Sample.MC 0 pm (Sample.seen pm) Sample.cell (Sample.step pm).
Proof.
  eapply (forward_fuses_intro Sample.ext Sample.cfg Sample.MC 0 _ _ _ _
            [Sample.frame] 6 [Sample.still] None [pm] [Sample.origin]
            (Some Sample.det_weak) (Some Sample.lmb)); reflexivity.
Defined.

Lemma sample_step (pm : tensor3 tval) :
  forward_step Sample.ext Sample.cfg Sample.MC 0 pm (Sample.step pm).
Proof. exists (Sample.seen pm), Sample.cell. apply sample_call. Defined.

(** ** Monotone channels *)

(** C6. In every call, each cell of the obstacle, explored, been-close and
    per-category semantic channels of the returned map is the maximum of its
    previous value and this step's warped value clamped to [0, 1]; it is
    therefore greater than or equal to its previous value. *)
Theorem max_fusion_never_decreases
    (ext : Extern) (cfg : Config) (MC : MapConstants)
    (e : nat) (prev : tensor3 tval) (w : warped) (loc : Z * Z) (m : tensor3 tval) (c r k : Z) :
  layout_ok cfg MC = true ->
  forward_fuses ext cfg MC e prev w loc m ->
  c = OBSTACLE_MAP MC \/ c = EXPLORED_MAP MC \/ c = BEEN_CLOSE_MAP MC
  \/ NON_SEM_CHANNELS MC <= c < NON_SEM_CHANNELS MC + num_sem_categories cfg ->
  isnan (prev c r k) = false ->
  m c r k = tmax (prev c r k) (Fin (Qclamp 0 1 (translated w c r k)))
  /\ tleb (prev c r k) (m c r k) = true.
Proof.
  intros Hl Hf Hc Hn. apply forward_fuses_map in Hf. subst m.
  rewrite (fused_flag_cell ext cfg MC Hl) by exact Hc.
  split; [reflexivity | apply tmax_ge_l, Hn].
Qed.

Lemma max_fusion_never_decreases_witness :
  layout_ok Sample.cfg Sample.MC = true
  /\ isnan (Sample.fresh_map 1 14 9) = false
  /\ Sample.step Sample.fresh_map 1 14 9
     = tmax (Sample.fresh_map 1 14 9)
            (Fin (Qclamp 0 1 (translated (Sample.seen Sample.fresh_map) 1 14 9)))
  /\ tleb (Sample.fresh_map 1 14 9) (Sample.step Sample.fresh_map 1 14 9) = true.
Proof.
  split; [reflexivity|]. split; [reflexivity|].
  apply (max_fusion_never_decreases Sample.ext Sample.cfg Sample.MC 0 Sample.fresh_map
           (Sample.seen Sample.fresh_map) Sample.cell (Sample.step Sample.fresh_map) 1 14 9).
  - reflexivity.
  - apply sample_call.
  - right. left. reflexivity.
  - reflexivity.
Defined.

(** ** Bounded log-odds *)

(** C7. Along every run of calls that starts from a map whose cell is not
    NaN, after each call the cell of the object-probability channel lies in
    [-10, 10], and the cell of a voxel channel is either still unassigned
    (an infinity) or lies in [-10, 10]. *)
Theorem log_odds_bounded
    (ext : Extern) (cfg : Config) (MC : MapConstants)
    (e : nat) (m0 m1 m2 : tensor3 tval) (c r k : Z) :
  layout_ok cfg MC = true ->
  c = PROBABILITY_MAP MC \/ VOXEL_START MC <= c < NON_SEM_CHANNELS MC ->
  isnan (m0 c r k) = false ->
  rtc (forward_step ext cfg MC e) m0 m1 ->
  forward_step ext cfg MC e m1 m2 ->
  (c = PROBABILITY_MAP MC -> in_range (-10) 10 (m2 c r k))
  /\ (VOXEL_START MC <= c < NON_SEM_CHANNELS MC -> isinf (m2 c r k) = false ->
      in_range (-10) 10 (m2 c r k)).
Proof.
  intros Hl Hc Hn Hrun Hstep.
  apply (step_bounded ext cfg MC Hl e m1 m2 c r k Hstep).
  apply (run_not_nan ext cfg MC Hl e m0 m1 c r k Hrun Hc Hn).
Qed.

Lemma log_odds_bounded_witness :
  layout_ok Sample.cfg Sample.MC = true
  /\ isnan (Sample.fresh_map 5 14 9) = false
  /\ in_range (-10) 10 (Sample.step (Sample.step Sample.fresh_map) 5 14 9).
Proof.
  split; [reflexivity|]. split; [reflexivity|].
  refine (proj1 (log_odds_bounded Sample.ext Sample.cfg Sample.MC 0 Sample.fresh_map
                   (Sample.step Sample.fresh_map) (Sample.step (Sample.step Sample.fresh_map))
                   5 14 9 _ _ _ _ _) _).
  - reflexivity.
  - left. reflexivity.
  - reflexivity.
  - apply rtc_once, sample_step.
  - apply sample_step.
  - reflexivity.
Defined.

(** ** The been-close override *)

(** C3. Once the been-close flag of a cell equals 1 in a returned map, the
    probability channel of that cell is exactly -10 in that map and in every
    map returned afterwards, whatever the later observations, and the flag
    stays equal to 1. *)
Theorem been_close_forces_minus_ten
    (ext : Extern) (cfg : Config) (MC : MapConstants)
    (e : nat) (m0 m1 m2 : tensor3 tval) (r k : Z) :
  layout_ok cfg MC = true ->
  forward_step ext cfg MC e m0 m1 ->
  teqb (m1 (BEEN_CLOSE_MAP MC) r k) (Fin 1) = true ->
  rtc (forward_step ext cfg MC e) m1 m2 ->
  m2 (PROBABILITY_MAP MC) r k = Fin (-10)
  /\ teqb (m2 (BEEN_CLOSE_MAP MC) r k) (Fin 1) = true.
Proof.
  intros Hl Hstep Hflag Hrun.
  pose proof (flag_one_run ext cfg MC Hl e m1 m2 r k Hrun Hflag) as Hflag2.
  split; [|exact Hflag2].
  destruct (rtc_inv_r _ _ Hrun) as [<- | (y & _ & Hlast)].
  - eapply flag_one_overrides; eassumption.
  - eapply flag_one_overrides; eassumption.
Qed.

Lemma been_close_forces_minus_ten_witness :
  layout_ok Sample.cfg Sample.MC = true
  /\ teqb (Sample.step Sample.close_map 4 14 9) (Fin 1) = true
  /\ Sample.step (Sample.step Sample.close_map) 5 14 9 = Fin (-10)
  /\ teqb (Sample.step (Sample.step Sample.close_map) 4 14 9) (Fin 1) = true.
Proof.
  split; [reflexivity|]. split; [reflexivity|].
  apply (been_close_forces_minus_ten Sample.ext Sample.cfg Sample.MC 0 Sample.close_map
           (Sample.step Sample.close_map) (Sample.step (Sample.step Sample.close_map)) 14 9).
  - reflexivity.
  - apply sample_step.
  - reflexivity.
  - apply rtc_once, sample_step.
Defined.

(** ** The voxel channels *)

(** C2, the claim as stated fails: a voxel cell that is not occupied in the
    call and held the log-odds 3 before it, in a column whose been-close flag
    is 1, is returned as -10: its previous value is not carried forward. *)
Lemma unoccupied_voxel_forced_when_close :
  let w := Sample.seen close_assigned_map in
  let m := Sample.step close_assigned_map in
  forward_fuses Sample.ext Sample.cfg Sample.MC 0 close_assigned_map w Sample.cell m
  /\ (let count := occupaid_voxel_st w 12 0 0 in ~ (1 # 2 < count)%Q)
  /\ close_assigned_map (VOXEL_START Sample.MC + 12) 0 0 = Fin 3
  /\ m (BEEN_CLOSE_MAP Sample.MC) 0 0 = Fin 1
  /\ m (VOXEL_START Sample.MC + 12) 0 0 = Fin (-10)
  /\ m (VOXEL_START Sample.MC + 12) 0 0 <> close_assigned_map (VOXEL_START Sample.MC + 12) 0 0.
Proof.
  intros w m. split; [apply sample_call|].
  split; [cbv zeta; intros H; vm_compute in H; discriminate|].
  split; [reflexivity|]. split; [vm_compute; reflexivity|].
  split; [vm_compute; reflexivity|].
  intros H. vm_compute in H. discriminate.
Qed.

(** C2, amended. For the voxel cell of height bin [j] at [(r, k)], with [p]
    its previous value, [count] its warped occupancy count, [lg] this step's
    logit and [v] its value in the returned map: a cell with [count > 0.5]
    and an assigned [p] is updated to [p + (lg - prior)]; a cell with
    [count <= 0.5] carries [p] forward; either value is then clamped to
    [-10, 10]; and in a column whose been-close flag is 1 every cell that
    holds a value, occupied in this call or not, is forced to -10.  A cell
    that is unassigned and not occupied keeps the unassigned mark, whatever
    the flag. *)
Theorem voxel_update_cases
    (ext : Extern) (cfg : Config) (MC : MapConstants)
    (e : nat) (prev : tensor3 tval) (w : warped) (loc : Z * Z) (m : tensor3 tval) (j r k : Z) :
  layout_ok cfg MC = true ->
  forward_fuses ext cfg MC e prev w loc m ->
  0 <= j -> VOXEL_START MC + j < NON_SEM_CHANNELS MC ->
  let p := prev (VOXEL_START MC + j) r k in
  let count := occupaid_voxel_st w j r k in
  let lg := voxel_logit ext cfg MC w j r k in
  let close := teqb (m (BEEN_CLOSE_MAP MC) r k) (Fin 1) in
  let v := m (VOXEL_START MC + j) r k in
  (forall q, (1 # 2 < count)%Q -> p = Fin q ->
             exists u, (u == q + (lg - prior_logit cfg))%Q
                       /\ v = if close then Fin (-10) else Fin (Qclamp (-10) 10 u))
  /\ (forall q, (count <= 1 # 2)%Q -> p = Fin q ->
                v = if close then Fin (-10) else Fin (Qclamp (-10) 10 q))
  /\ (forall q, (count <= 1 # 2)%Q -> p = Fin q -> close = false ->
                (-10 <= q)%Q -> (q <= 10)%Q -> teqb v p = true)
  /\ ((count <= 1 # 2)%Q -> isinf p = true -> v = p)
  /\ (isnan p = false -> forall x, v = Fin x -> (-10 <= x)%Q /\ (x <= 10)%Q)
  /\ (close = true -> isinf v = false -> v = Fin (-10)).
Proof.
  intros Hl Hf Hj Hj' p count lg close v.
  pose proof (confident_is_returned_flag ext cfg MC Hl e prev w loc m r k Hf) as Hflag.
  apply forward_fuses_map in Hf.
  assert (Hv : v = updated ext cfg MC prev w j r k).
  { unfold v. rewrite Hf. apply (fused_voxel_cell ext cfg MC Hl); lia. }
  assert (Hm : v = if close && negb (isinf (updated_case2 ext cfg MC prev w j r k))
                   then Fin (-10) else updated_clamped ext cfg MC prev w j r k).
  { rewrite Hv, updated_eq. unfold close. rewrite <- Hflag. reflexivity. }
  assert (Hno : (count <= 1 # 2)%Q -> is_occupaid w j r k = false).
  { intros Hc. destruct (is_occupaid w j r k) eqn:E; [|reflexivity].
    apply is_occupaid_iff in E. exfalso. apply (Qlt_irrefl (1 # 2)).
    eapply Qlt_le_trans; [exact E | exact Hc]. }
  assert (Hcarry : forall q, (count <= 1 # 2)%Q -> p = Fin q ->
                             v = if close then Fin (-10) else Fin (Qclamp (-10) 10 q)).
  { intros q Hc Hq. rewrite Hm, updated_clamped_eq.
    rewrite updated_case2_unoccupied by (apply Hno, Hc).
    fold p. rewrite Hq. simpl. rewrite andb_true_r. reflexivity. }
  split; [|split; [exact Hcarry|split; [|split; [|split]]]].
  - intros q Hc Hq. apply is_occupaid_iff in Hc.
    exists (q + lg + - prior_logit cfg)%Q. split; [ring|].
    rewrite Hm, updated_clamped_eq.
    rewrite updated_case2_occupied_assigned by (try exact Hc; fold p; rewrite Hq; reflexivity).
    fold p lg. rewrite Hq. simpl. rewrite andb_true_r. reflexivity.
  - intros q Hc Hq Hcl H1 H2. rewrite (Hcarry q Hc Hq), Hcl, Hq. simpl.
    apply Qeq_bool_iff. apply Qclamp_within; assumption.
  - intros Hc Hi. rewrite Hm, updated_clamped_eq.
    rewrite updated_case2_unoccupied by (apply Hno, Hc).
    fold p. rewrite Hi. rewrite andb_false_r. reflexivity.
  - intros Hn x Hx.
    destruct (updated_bounded ext cfg MC prev w j r k Hn) as (q' & Hq' & Hb).
    { rewrite <- Hv, Hx. reflexivity. }
    rewrite <- Hv, Hx in Hq'. injection Hq' as ->. exact Hb.
  - intros Hcl Hi. rewrite Hm, Hcl in *. rewrite updated_clamped_eq in *.
    destruct (isinf (updated_case2 ext cfg MC prev w j r k)) eqn:E; simpl in *;
      [congruence | reflexivity].
Qed.

Lemma voxel_update_cases_witness :
  layout_ok Sample.cfg Sample.MC = true
  /\ 0 <= 12 /\ VOXEL_START Sample.MC + 12 < NON_SEM_CHANNELS Sample.MC
  /\ (let count := occupaid_voxel_st (Sample.seen Sample.assigned_map) 12 14 9 in
      (1 # 2 < count)%Q)
  /\ exists u,
      (let lg := voxel_logit Sample.ext Sample.cfg Sample.MC (Sample.seen Sample.assigned_map) 12 14 9 in
       (u == 3 + (lg - prior_logit Sample.cfg))%Q)
      /\ Sample.step Sample.assigned_map (VOXEL_START Sample.MC + 12) 14 9
         = if teqb (Sample.step Sample.assigned_map (BEEN_CLOSE_MAP Sample.MC) 14 9) (Fin 1)
           then Fin (-10) else Fin (Qclamp (-10) 10 u).
Proof.
  split; [reflexivity|]. split; [lia|]. split; [reflexivity|]. split; [reflexivity|].
  refine (proj1 (voxel_update_cases Sample.ext Sample.cfg Sample.MC 0 Sample.assigned_map
                   (Sample.seen Sample.assigned_map) Sample.cell
                   (Sample.step Sample.assigned_map) 12 14 9 _ _ _ _) 3%Q _ _).
  - reflexivity.
  - apply sample_call.
  - lia.
  - reflexivity.
  - reflexivity.
  - reflexivity.
Defined.

Lemma unoccupied_keeps_sentinel
    (ext : Extern) (cfg : Config) (MC : MapConstants)
    (e : nat) (prev : tensor3 tval) (w : warped) (loc : Z * Z) (m : tensor3 tval) (j r k : Z) :
  layout_ok cfg MC = true ->
  0 <= j -> VOXEL_START MC + j < NON_SEM_CHANNELS MC ->
  forward_fuses ext cfg MC e prev w loc m ->
  is_occupaid w j r k = false ->
  isinf (prev (VOXEL_START MC + j) r k) = true ->
  m (VOXEL_START MC + j) r k = prev (VOXEL_START MC + j) r k.
Proof.
  intros Hl Hj Hj' Hf Ho Hi. apply forward_fuses_map in Hf. subst m.
  rewrite (fused_voxel_cell ext cfg MC Hl) by lia.
  rewrite updated_eq, updated_clamped_eq, updated_case2_unoccupied by exact Ho.
  rewrite Hi, andb_false_r. reflexivity.
Qed.

(** C4, the claim as stated fails: a cell unassigned so far and occupied in
    this call does not receive the logit minus the prior.  In the small
    configuration the cell of height bin 12 at (14, 9) goes from the
    unassigned mark to this step's logit itself. *)
Lemma first_observation_not_prior_relative :
  let w := Sample.seen Sample.fresh_map in
  let m := Sample.step Sample.fresh_map in
  forward_fuses Sample.ext Sample.cfg Sample.MC 0 Sample.fresh_map w Sample.cell m
  /\ Sample.fresh_map (VOXEL_START Sample.MC + 12) 14 9 = PInf
  /\ is_occupaid w 12 14 9 = true
  /\ exists q,
      let lg := voxel_logit Sample.ext Sample.cfg Sample.MC w 12 14 9 in
      m (VOXEL_START Sample.MC + 12) 14 9 = Fin q
      /\ (q == lg)%Q
      /\ ~ (q == lg - prior_logit Sample.cfg)%Q.
Proof.
  intros w m. split; [apply sample_call|]. split; [reflexivity|]. split; [reflexivity|].
  exists (- (8 # 10))%Q. cbv zeta. split; [vm_compute; reflexivity|]. split.
  - vm_compute. reflexivity.
  - intros H. vm_compute in H. discriminate.
Qed.

(** C4, amended. A voxel cell that carries the unassigned mark keeps it
    through every run of calls in which it is not occupied; in the first call
    in which it is occupied it receives this step's logit clamped to
    [-10, 10] (the prior is not subtracted), or -10 when the been-close flag
    of its column is 1; the new value is finite. *)
Theorem sentinel_until_first_observation
    (ext : Extern) (cfg : Config) (MC : MapConstants)
    (e : nat) (j r k : Z) (m0 m1 : tensor3 tval) (w : warped) (loc : Z * Z) (m2 : tensor3 tval) :
  layout_ok cfg MC = true ->
  0 <= j -> VOXEL_START MC + j < NON_SEM_CHANNELS MC ->
  isinf (m0 (VOXEL_START MC + j) r k) = true ->
  unoccupied_run ext cfg MC e j r k m0 m1 ->
  m1 (VOXEL_START MC + j) r k = m0 (VOXEL_START MC + j) r k
  /\ (forward_fuses ext cfg MC e m1 w loc m2 ->
      is_occupaid w j r k = true ->
      m2 (VOXEL_START MC + j) r k
      = (if teqb (m2 (BEEN_CLOSE_MAP MC) r k) (Fin 1) then Fin (-10)
         else Fin (Qclamp (-10) 10 (voxel_logit ext cfg MC w j r k)))
      /\ in_range (-10) 10 (m2 (VOXEL_START MC + j) r k)).
Proof.
  intros Hl Hj Hj' Hi Hrun.
  assert (Hkeep : m1 (VOXEL_START MC + j) r k = m0 (VOXEL_START MC + j) r k).
  { induction Hrun as [m | prev w' loc' m m' Hf Ho _ IH]; [reflexivity|].
    pose proof (unoccupied_keeps_sentinel ext cfg MC e prev w' loc' m j r k Hl Hj Hj' Hf Ho Hi) as Hs.
    rewrite <- Hs. apply IH. rewrite Hs. exact Hi. }
  split; [exact Hkeep|]. intros Hf Ho.
  pose proof (confident_is_returned_flag ext cfg MC Hl e m1 w loc m2 r k Hf) as Hflag.
  apply forward_fuses_map in Hf.
  assert (Hm : m2 (VOXEL_START MC + j) r k
               = if teqb (m2 (BEEN_CLOSE_MAP MC) r k) (Fin 1) then Fin (-10)
                 else Fin (Qclamp (-10) 10 (voxel_logit ext cfg MC w j r k))).
  { rewrite <- Hflag. subst m2. rewrite (fused_voxel_cell ext cfg MC Hl) by lia.
    rewrite updated_eq, updated_clamped_eq.
    rewrite updated_case2_occupied_empty by (try exact Ho; rewrite Hkeep; exact Hi).
    simpl. rewrite andb_true_r. reflexivity. }
  split; [exact Hm|]. rewrite Hm.
  destruct (teqb (m2 (BEEN_CLOSE_MAP MC) r k) (Fin 1)).
  - exists (-10)%Q. split; [reflexivity|]. split; discriminate.
  - eexists. split; [reflexivity|]. apply Qclamp_bounds. discriminate.
Qed.

Lemma sentinel_until_first_observation_witness :
  layout_ok Sample.cfg Sample.MC = true
  /\ 0 <= 12 /\ VOXEL_START Sample.MC + 12 < NON_SEM_CHANNELS Sample.MC
  /\ isinf (Sample.fresh_map (VOXEL_START Sample.MC + 12) 14 9) = true
  /\ in_range (-10) 10 (Sample.step Sample.fresh_map (VOXEL_START Sample.MC + 12) 14 9).
Proof.
  split; [reflexivity|]. split; [lia|]. split; [reflexivity|]. split; [reflexivity|].
  refine (proj2 (proj2 (sentinel_until_first_observation Sample.ext Sample.cfg Sample.MC 0 12 14 9
                         Sample.fresh_map Sample.fresh_map (Sample.seen Sample.fresh_map)
                         Sample.cell (Sample.step Sample.fresh_map) _ _ _ _ _) _ _)).
  - reflexivity.
  - lia.
  - reflexivity.
  - reflexivity.
  - apply unoccupied_nil.
  - apply sample_call.
  - reflexivity.
Defined.

(** ** The location channels *)

Lemma marked_is_square5 (cfg : Config) (loc : Z * Z) (r k : Z) :
  2 <= loc.1 -> loc.1 + 3 <= map_side cfg -> 2 <= loc.2 -> loc.2 + 3 <= map_side cfg ->
  marked cfg loc r k = square5 loc r k.
Proof.
  intros Hx Hx' Hy Hy'. unfold marked, square5.
  apply eq_true_iff_eq.
  rewrite !andb_true_iff, !in_slice_iff, !Z.leb_le by lia. lia.
Qed.

Lemma trail_persists
    (ext : Extern) (cfg : Config) (MC : MapConstants) (e : nat) (m m' : tensor3 tval) (r k : Z) :
  layout_ok cfg MC = true ->
  rtc (forward_step ext cfg MC e) m m' ->
  teqb (m (CURRENT_LOCATION MC + 1) r k) (Fin 1) = true ->
  teqb (m' (CURRENT_LOCATION MC + 1) r k) (Fin 1) = true.
Proof.
  intros Hl. induction 1 as [|x y z (w & loc & Hxy) _ IH]; intros H1; [exact H1|].
  apply IH. apply forward_fuses_map in Hxy. subst y.
  rewrite (fused_trail_cell ext cfg MC Hl).
  destruct (marked cfg loc r k); [reflexivity|]. apply tmax_flag_one, H1.
Qed.

(** C10, amended. In every call the current-location channel is all zero except for
    the rows [y - 2 : y + 3] and columns [x - 2 : x + 3], which are 1; the same
    rows and columns of the channel after it are set to 1 too, and the rest of
    that channel is the element-wise maximum of its previous value and the
    clamped warped value.  The selected cells are the 5 x 5 square centred on
    the agent's cell whenever the square lies inside the map.  A cell marked
    in the channel after the current-location channel equals 1 in every map
    returned later, whereas the current-location channel of a later call is 0
    outside the cells that call marks. *)
Theorem location_marking_leaves_trail
    (ext : Extern) (cfg : Config) (MC : MapConstants)
    (e : nat) (prev : tensor3 tval) (w : warped) (loc : Z * Z) (m : tensor3 tval) (r k : Z) :
  layout_ok cfg MC = true ->
  forward_fuses ext cfg MC e prev w loc m ->
  m (CURRENT_LOCATION MC) r k = (if marked cfg loc r k then Fin 1 else Fin 0)
  /\ m (CURRENT_LOCATION MC + 1) r k
     = (if marked cfg loc r k then Fin 1
        else tmax (prev (CURRENT_LOCATION MC + 1) r k)
                  (Fin (Qclamp 0 1 (translated w (CURRENT_LOCATION MC + 1) r k))))
  /\ (2 <= loc.1 -> loc.1 + 3 <= map_side cfg -> 2 <= loc.2 -> loc.2 + 3 <= map_side cfg ->
      marked cfg loc r k = square5 loc r k)
  /\ (marked cfg loc r k = true ->
      forall m', rtc (forward_step ext cfg MC e) m m' ->
                 teqb (m' (CURRENT_LOCATION MC + 1) r k) (Fin 1) = true)
  /\ (forall w' loc' m', forward_fuses ext cfg MC e m w' loc' m' ->
                         marked cfg loc' r k = false ->
                         m' (CURRENT_LOCATION MC) r k = Fin 0).
Proof.
  intros Hl Hf. apply forward_fuses_map in Hf.
  assert (Htrail : m (CURRENT_LOCATION MC + 1) r k
                   = if marked cfg loc r k then Fin 1
                     else tmax (prev (CURRENT_LOCATION MC + 1) r k)
                               (Fin (Qclamp 0 1 (translated w (CURRENT_LOCATION MC + 1) r k)))).
  { subst m. apply (fused_trail_cell ext cfg MC Hl). }
  split; [subst m; apply (fused_location_cell ext cfg MC Hl)|].
  split; [exact Htrail|].
  split; [apply marked_is_square5|].
  split.
  - intros Hm m' Hrun. apply (trail_persists ext cfg MC e m m' r k Hl Hrun).
    rewrite Htrail, Hm. reflexivity.
  - intros w' loc' m' Hf' Hm'. apply forward_fuses_map in Hf'. subst m'.
    rewrite (fused_location_cell ext cfg MC Hl), Hm'. reflexivity.
Qed.

Lemma location_marking_leaves_trail_witness :
  layout_ok Sample.cfg Sample.MC = true
  /\ Sample.step Sample.fresh_map (CURRENT_LOCATION Sample.MC) 12 12
     = (if marked Sample.cfg Sample.cell 12 12 then Fin 1 else Fin 0).
Proof.
  split; [reflexivity|].
  refine (proj1 (location_marking_leaves_trail Sample.ext Sample.cfg Sample.MC 0 Sample.fresh_map
                   (Sample.seen Sample.fresh_map) Sample.cell (Sample.step Sample.fresh_map)
                   12 12 _ _)).
  - reflexivity.
  - apply sample_call.
Defined.

(** Near the border the slices select fewer cells than the square, or none:
    with the agent in row 1 the start [y - 2 = -1] counts from the end of the
    axis and the slice [-1 : 4] is empty. *)
Example marked_near_border : forall r k, marked Sample.cfg (12, 1) r k = false.
Proof.
  intros r k.
  assert (H : in_slice (map_side Sample.cfg) (1 - 2) (1 + 3) r = false).
  { unfold in_slice.
    change (slice_bound (map_side Sample.cfg) (1 - 2)) with 23.
    change (slice_bound (map_side Sample.cfg) (1 + 3)) with 4.
    destruct (Z.leb_spec 23 r), (Z.ltb_spec r 4); rewrite ?andb_false_r; try reflexivity. lia. }
  unfold marked. cbn [fst snd]. rewrite H. reflexivity.
Qed.

(** The call with the agent next to the border. *)
Lemma border_call (pm : tensor3 tval) :
  forward_fuses Sample.ext Sample.cfg Sample.MC 0 pm (border_seen pm) (12, 1) (border_step pm).
Proof.
  eapply (forward_fuses_intro Sample.ext Sample.cfg Sample.MC 0 _ _ _ _
            [Sample.frame] 6 [Sample.still] None [pm] [border_origin]
            (Some Sample.det_weak) (Some Sample.lmb)); reflexivity.
Qed.

(** C10, the claim as stated fails: with the agent at the map cell
    [(x, y) = (12, 1)], inside the 24 x 24 local map, the slice [y - 2 : y + 3]
    is [-1 : 4], which selects no row.  The call writes no square: the
    current-location channel is 0 everywhere, and the cell of the agent is 0
    in the channel after it too. *)
Lemma no_square_near_border :
  let w := border_seen Sample.fresh_map in
  let m := border_step Sample.fresh_map in
  forward_fuses Sample.ext Sample.cfg Sample.MC 0 Sample.fresh_map w (12, 1) m
  /\ map_side Sample.cfg = 24
  /\ (forall r k, m (CURRENT_LOCATION Sample.MC) r k = Fin 0)
  /\ m (CURRENT_LOCATION Sample.MC + 1) 1 12 = Fin 0.
Proof.
  intros w m. split; [apply border_call|]. split; [reflexivity|]. split.
  - intros r k. pose proof (border_call Sample.fresh_map) as Hf.
    apply forward_fuses_map in Hf. unfold m. rewrite Hf.
    rewrite (fused_location_cell Sample.ext Sample.cfg Sample.MC eq_refl).
    rewrite marked_near_border. reflexivity.
  - vm_compute. reflexivity.
Qed.

(** ** A call without detection results *)

(** The detection block itself handles the absent bundle: the probability
    features are all zero and no instance is recorded. *)
Lemma detection_block_none (ext : Extern) (cfg : Config) (batch_size : nat) :
  detection_block ext cfg batch_size None
  = Ok (mkLocals (repeat (fun _ => 0%Q) batch_size) None [] [] []).
Proof. reflexivity. Qed.

(** C1 (the code does not do this). With [detection_results = None] the
    name [num_detected_instance] is never bound, and line 346 reads it: every
    such call raises UnboundLocalError instead of returning.  The path the
    claim compares with does return: with a detection bundle that holds no
    instance the probability features are all zero, no instance channel is
    added and the dictionary is None. *)
Theorem forward_without_detections_raises
    (ext : Extern) (cfg : Config) (MC : MapConstants)
    (obs : list (tensor3 Q)) (obs_channels : Z) (pose_delta : list pose)
    (camera_pose : option (list (plane Q))) (prev_map : list (tensor3 tval))
    (prev_pose : list pose) (lmb : option (list (Z * Z * Z * Z)))
    (s : list (list Q)) (c : list (list Z)) (ms : list (list (plane Q))) (rel : list Q) :
  forward ext cfg MC obs obs_channels pose_delta camera_pose prev_map prev_pose None lmb
  = Raise UnboundLocalError
  /\ let agents :=
       map (agent_of obs pose_delta camera_pose prev_map prev_pose
              (repeat (fun _ => 0%Q) (length obs)))
           (seq 0 (length obs)) in
     forward ext cfg MC obs obs_channels pose_delta camera_pose prev_map prev_pose
       (Some (mkDetections s c ([] :: ms) rel)) lmb
     = Ok (map (current_map ext cfg MC obs_channels 0 []) agents,
           map (current_pose ext) agents,
           None).
Proof. split; reflexivity. Qed.

(** ** The caller's observation tensor *)

Module StorageFacts.
Import Storage.

(** With a float32 observation the depth tensor is a view of the caller's
    storage, and the zeroing goes through to it. *)
Lemma depth_lines_float32 (max_depth : Q) (h : gmap nat buffer) (obs : tensor) (b : buffer) :
  h !! t_addr obs = Some b -> buf_dtype b = float32 ->
  depth_lines max_depth h obs
  = (<[t_addr obs := mkBuffer float32
         (fun e c r k => if (c =? 3) && Qgtb (buf_data b e c r k) max_depth
                         then 0%Q else buf_data b e c r k)]> h,
     select_channel obs 3).
Proof.
  intros Hb Hd. unfold depth_lines, to_float, zero_above. simpl.
  rewrite Hb. destruct (decide (buf_dtype b = float32)); [|contradiction].
  simpl. rewrite Hb, Hd. reflexivity.
Qed.

(** With any other element type the conversion copies, and the caller's
    storage keeps its entries. *)
Lemma depth_lines_other (max_depth : Q) (h : gmap nat buffer) (obs : tensor) (b : buffer) :
  h !! t_addr obs = Some b -> buf_dtype b <> float32 ->
  (depth_lines max_depth h obs).1 !! t_addr obs = Some b.
Proof.
  intros Hb Hd. unfold depth_lines, to_float, zero_above. simpl.
  rewrite Hb. destruct (decide (buf_dtype b = float32)); [contradiction|].
  simpl. rewrite lookup_insert_eq. 
  assert (Hne : fresh (dom h) <> t_addr obs).
  { intros E. apply (is_fresh (dom h)). rewrite E. apply elem_of_dom. eauto. }
  rewrite !lookup_insert_ne by exact Hne. exact Hb.
Qed.

(** Whatever the element type, the tensor [depth] the method goes on with
    holds the thresholded depth plane, the [depth] of the functional model. *)
Lemma depth_lines_value (max_depth : Q) (h : gmap nat buffer) (obs : tensor) (b : buffer) :
  h !! t_addr obs = Some b ->
  exists b',
    (depth_lines max_depth h obs).1 !! t_addr (depth_lines max_depth h obs).2 = Some b'
    /\ forall e r k,
        buf_data b' e 3 r k
        = if Qgtb (buf_data b e 3 r k) max_depth then 0%Q else buf_data b e 3 r k.
Proof.
  intros Hb. unfold depth_lines, to_float, zero_above. simpl. rewrite Hb.
  destruct (decide (buf_dtype b = float32)); simpl.
  - rewrite Hb. simpl. rewrite lookup_insert_eq. eexists. split; [reflexivity|].
    intros e0 r k. simpl. reflexivity.
  - rewrite lookup_insert_eq. simpl. rewrite lookup_insert_eq. eexists. split; [reflexivity|].
    intros e0 r k. simpl. reflexivity.
Qed.

(** C9 (the code does not do this). On a float32 observation with a depth
    entry above [max_depth] (600 cm against 500 cm), the entry the caller
    reads in its own tensor after lines 231-232 is 0, not 600; a float64
    observation is left as it was. *)
Theorem forward_zeroes_callers_depth :
  let h := {[ 0%nat := far_frame ]} : gmap nat buffer in
  let h64 := {[ 0%nat := far_frame64 ]} : gmap nat buffer in
  read h obs_tensor 0 3 0 0 = Some 600%Q
  /\ read (depth_lines (max_depth Sample.cfg) h obs_tensor).1 obs_tensor 0 3 0 0 = Some 0%Q
  /\ read (depth_lines (max_depth Sample.cfg) h64 obs_tensor).1 obs_tensor 0 3 0 0 = Some 600%Q.
Proof.
  intros h h64. split; [reflexivity|]. split.
  - unfold h. rewrite (depth_lines_float32 _ _ _ far_frame) by reflexivity.
    unfold read. simpl. rewrite lookup_insert_eq. reflexivity.
  - unfold read. rewrite (depth_lines_other _ h64 _ far_frame64); [reflexivity|reflexivity|discriminate].
Qed.

End StorageFacts.

(** ** The instance dictionary *)

Lemma index_nth {A : Type} (l : list A) (i : Z) (d : A) :
  0 <= i < Z.of_nat (length l) -> Py.index l i = Ok (nth (Z.to_nat i) l d).
Proof.
  intros Hi. unfold Py.index.
  destruct (i <? 0) eqn:E; [apply Z.ltb_lt in E; lia|].
  replace ((0 <=? i) && (i <? Z.of_nat (length l))) with true
    by (symmetry; rewrite andb_true_iff, Z.leb_le, Z.ltb_lt; lia).
  destruct (nth_error l (Z.to_nat i)) as [a|] eqn:En.
  - f_equal. symmetry. apply nth_error_nth, En.
  - apply nth_error_None in En. lia.
Qed.

Lemma zmin_list_spec (l : list Z) :
  l <> [] -> In (zmin_list l) l /\ forall x, In x l -> zmin_list l <= x.
Proof.
  destruct l as [|a t]; [congruence|]. intros _. simpl. revert a.
  induction t as [|b t IH]; intros a; simpl.
  - split; [left; reflexivity|]. intros x [E|[]]. lia.
  - destruct (IH (Z.min a b)) as [Hin Hle]. split.
    + destruct Hin as [E|Hin]; [|right; right; exact Hin].
      rewrite <- E. destruct (Z.min_spec a b) as [[_ ->]|[_ ->]]; [left | right; left]; reflexivity.
    + intros x Hx. specialize (Hle (Z.min a b) (or_introl eq_refl)) as Hm.
      destruct Hx as [E|[E|Hx]]; [lia | lia | apply Hle; right; exact Hx].
Qed.

Lemma zmax_list_spec (l : list Z) :
  l <> [] -> In (zmax_list l) l /\ forall x, In x l -> x <= zmax_list l.
Proof.
  destruct l as [|a t]; [congruence|]. intros _. simpl. revert a.
  induction t as [|b t IH]; intros a; simpl.
  - split; [left; reflexivity|]. intros x [E|[]]. lia.
  - destruct (IH (Z.max a b)) as [Hin Hle]. split.
    + destruct Hin as [E|Hin]; [|right; right; exact Hin].
      rewrite <- E. destruct (Z.max_spec a b) as [[_ ->]|[_ ->]]; [right; left | left]; reflexivity.
    + intros x Hx. specialize (Hle (Z.max a b) (or_introl eq_refl)) as Hm.
      destruct Hx as [E|[E|Hx]]; [lia | lia | apply Hle; right; exact Hx].
Qed.

Lemma in_zrange (n i : Z) : In i (zrange n) <-> 0 <= i < n.
Proof.
  unfold zrange. rewrite in_map_iff. split.
  - intros (x & <- & Hx). apply in_seq in Hx. lia.
  - intros H. exists (Z.to_nat i). split; [lia|]. apply in_seq. lia.
Qed.

Lemma nonzero_iff (M : Z) (p : plane Q) (r k : Z) :
  In (r, k) (nonzero M p) <-> 0 <= r < M /\ 0 <= k < M /\ ~ (p r k == 0)%Q.
Proof.
  unfold nonzero. rewrite in_flat_map. split.
  - intros (r' & Hr & Hin). apply in_map_iff in Hin as (k' & E & Hk).
    injection E as -> ->. apply filter_In in Hk as [Hk Hnz].
    apply in_zrange in Hr, Hk. split; [exact Hr|]. split; [exact Hk|].
    apply negb_true_iff in Hnz. intros Heq. apply Qeq_bool_iff in Heq. congruence.
  - intros (Hr & Hk & Hnz). exists r. split; [apply in_zrange, Hr|].
    apply in_map_iff. exists k. split; [reflexivity|]. apply filter_In.
    split; [apply in_zrange, Hk|]. apply negb_true_iff.
    destruct (Qeq_bool (p r k) 0) eqn:E; [|reflexivity].
    apply Qeq_bool_iff in E. contradiction.
Qed.

(** The minima and maxima of lines 543-546 are the tight box of the mask. *)
Lemma extent_is_bounding_box (M : Z) (p : plane Q) :
  nonzero M p <> [] ->
  is_bounding_box M p
    (zmin_list (map fst (nonzero M p)), zmax_list (map fst (nonzero M p)),
     zmin_list (map snd (nonzero M p)), zmax_list (map snd (nonzero M p))).
Proof.
  intros Hne.
  assert (Hf : map fst (nonzero M p) <> []) by (destruct (nonzero M p); simpl; congruence).
  assert (Hs : map snd (nonzero M p) <> []) by (destruct (nonzero M p); simpl; congruence).
  destruct (zmin_list_spec _ Hf) as [Hx1 Hx1'], (zmax_list_spec _ Hf) as [Hx2 Hx2'].
  destruct (zmin_list_spec _ Hs) as [Hy1 Hy1'], (zmax_list_spec _ Hs) as [Hy2 Hy2'].
  unfold is_bounding_box. split.
  - intros r k Hr Hk Hnz.
    assert (Hin : In (r, k) (nonzero M p)) by (apply nonzero_iff; tauto).
    pose proof (in_map fst _ _ Hin) as H1. pose proof (in_map snd _ _ Hin) as H2.
    simpl in H1, H2. specialize (Hx1' _ H1). specialize (Hx2' _ H1).
    specialize (Hy1' _ H2). specialize (Hy2' _ H2). lia.
  - repeat split.
    + apply in_map_iff in Hx1 as ([r k] & E & Hin). simpl in E. rewrite <- E.
      apply nonzero_iff in Hin. exists k. tauto.
    + apply in_map_iff in Hx2 as ([r k] & E & Hin). simpl in E. rewrite <- E.
      apply nonzero_iff in Hin. exists k. tauto.
    + apply in_map_iff in Hy1 as ([r k] & E & Hin). simpl in E. rewrite <- E.
      apply nonzero_iff in Hin. exists r. tauto.
    + apply in_map_iff in Hy2 as ([r k] & E & Hin). simpl in E. rewrite <- E.
      apply nonzero_iff in Hin. exists r. tauto.
Qed.

Lemma empty_dict_holds (cfg : Config) (origin : Z * Z * Z * Z) (ist : tensor3 Q)
    (cls : list Z) (scs : list Q) :
  dict_holds cfg origin ist cls scs [] (empty_instances_dict cfg).
Proof.
  assert (Hl : forall (keys : list Z) (k : Z),
             (In k keys -> foldr (fun k d => <[k := []]> d) (∅ : gmap Z (list ins_obj)) keys !! k = Some [])
             /\ (~ In k keys -> foldr (fun k d => <[k := []]> d) (∅ : gmap Z (list ins_obj)) keys !! k = None)).
  { induction keys as [|a t IH]; intros k; simpl.
    - split; [intros [] | intros _; apply lookup_empty].
    - destruct (decide (a = k)) as [->|Hne].
      + split; [intros _; apply lookup_insert_eq | intros H; exfalso; apply H; left; reflexivity].
      + rewrite lookup_insert_ne by exact Hne. split.
        * intros [E|H]; [contradiction | apply IH, H].
        * intros H. apply IH. intros H'. apply H. right. exact H'. }
  intros k. unfold empty_instances_dict. split.
  - intros Hk. exists []. split; [apply Hl, in_py_range; lia | constructor].
  - intros Hk. apply Hl. rewrite in_py_range. lia.
Qed.

Section InstanceFacts.

Variable cfg : Config.
Variable origin : Z * Z * Z * Z.
Variable rows : list (Z * Z * Z * Z).
Variable ist : tensor3 Q.
Variable cls : list Z.
Variable scs : list Q.

(** One turn of the loop extends the dictionary by the record of detection
    [i] when its warped mask is not empty, and leaves it alone otherwise. *)
Lemma instance_turn_holds (turns : list Z) (d : gmap Z (list ins_obj)) (i : Z) :
  dict_holds cfg origin ist cls scs turns d ->
  0 <= i < Z.of_nat (length cls) -> 0 <= i < Z.of_nat (length scs) ->
  0 <= nth (Z.to_nat i) cls 0 < num_sem_categories cfg ->
  exists d',
    instance_turn cfg (Some (origin :: rows)) ist cls scs d i = Ok d'
    /\ dict_holds cfg origin ist cls scs (turns ++ [i]) d'.
Proof.
  intros Hd Hic His Hc. unfold instance_turn.
  fold (nonempty_mask (map_side cfg) (ist i)).
  destruct (nonempty_mask (map_side cfg) (ist i)) eqn:Hne.
  - change (index (origin :: rows) 0) with (Ok (A := Z * Z * Z * Z) origin).
    cbn [mbind result_bind Py.bind].
    rewrite (index_nth scs i 0%Q His). cbn [mbind result_bind Py.bind].
    rewrite (index_nth cls i 0 Hic). cbn [mbind result_bind Py.bind].
    destruct (proj1 (Hd _) Hc) as (objs & Hobjs & Hall). rewrite Hobjs.
    eexists. split; [reflexivity|]. intros k. split.
    + intros Hk. destruct (decide (nth (Z.to_nat i) cls 0 = k)) as [E|E].
      * subst k. rewrite lookup_insert_eq. eexists. split; [reflexivity|].
        rewrite List.filter_app. apply Forall2_app; [exact Hall|].
        simpl. unfold selected at 1. rewrite Hne, Z.eqb_refl. simpl.
        constructor; [|constructor].
        split; [reflexivity|]. split; [reflexivity|].
        eexists _, _, _, _. split; [|split; reflexivity].
        apply extent_is_bounding_box. unfold nonempty_mask in Hne.
        apply Z.ltb_lt in Hne. destruct (nonzero (map_side cfg) (ist i)); simpl in *; [lia|congruence].
      * rewrite lookup_insert_ne by exact E.
        destruct (proj1 (Hd k) Hk) as (objs' & Hobjs' & Hall'). exists objs'.
        split; [exact Hobjs'|]. rewrite List.filter_app. simpl. unfold selected at 2.
        replace (nth (Z.to_nat i) cls 0 =? k) with false by (symmetry; apply Z.eqb_neq; exact E).
        rewrite andb_false_r, app_nil_r. exact Hall'.
    + intros Hk. rewrite lookup_insert_ne by (intros E; subst k; contradiction).
      apply Hd, Hk.
  - eexists. split; [reflexivity|]. intros k. split.
    + intros Hk. destruct (proj1 (Hd k) Hk) as (objs' & Hobjs' & Hall'). exists objs'.
      split; [exact Hobjs'|]. rewrite List.filter_app. simpl. unfold selected at 2.
      rewrite Hne. simpl. rewrite app_nil_r. exact Hall'.
    + apply Hd.
Qed.

Lemma instance_loop_holds (rest turns : list Z) (d : gmap Z (list ins_obj)) :
  dict_holds cfg origin ist cls scs turns d ->
  (forall i, In i rest ->
             0 <= i < Z.of_nat (length cls) /\ 0 <= i < Z.of_nat (length scs)
             /\ 0 <= nth (Z.to_nat i) cls 0 < num_sem_categories cfg) ->
  exists d',
    instance_loop cfg (Some (origin :: rows)) ist cls scs d rest = Ok d'
    /\ dict_holds cfg origin ist cls scs (turns ++ rest) d'.
Proof.
  revert turns d. induction rest as [|i rest IH]; intros turns d Hd Hall.
  - exists d. rewrite app_nil_r. split; [reflexivity | exact Hd].
  - destruct (Hall i (or_introl eq_refl)) as (Hic & His & Hc).
    destruct (instance_turn_holds turns d i Hd Hic His Hc) as (d1 & Ht & Hd1).
    destruct (IH (turns ++ [i]) d1 Hd1) as (d' & Hl & Hd').
    { intros i' Hi'. apply Hall. right. exact Hi'. }
    exists d'. split.
    + simpl. rewrite Ht. exact Hl.
    + rewrite <- app_assoc in Hd'. exact Hd'.
Qed.

End InstanceFacts.

Lemma select_length {A : Type} (l : list A) (idx : list bool) :
  length l = length idx -> length (select l idx) = length (List.filter id idx).
Proof.
  unfold select. revert idx. induction l as [|a l IH]; intros [|b idx] H; simpl in *; try congruence.
  destruct b; simpl; rewrite IH by congruence; reflexivity.
Qed.

(** C8, the claim as stated fails: a call does not always return a
    dictionary.  With one detection of score 0.3, below the confirmation
    threshold, the third component of the result is None. *)
Lemma no_confirmed_detection_no_dictionary :
  forward Sample.ext Sample.cfg Sample.MC [Sample.frame] 6 [Sample.still] None
    [Sample.fresh_map] [Sample.origin] (Some Sample.det_weak) (Some Sample.lmb)
  = Ok ([Sample.step Sample.fresh_map],
        [current_pose Sample.ext (Sample.agent Sample.fresh_map)],
        None).
Proof. reflexivity. Qed.

(** C8, amended. For a batch of one with detection results and window
    bounds supplied, whose confirmed detections have class ids below the
    number of categories: when no detection exceeds the confirmation
    threshold the call returns None in place of the dictionary; otherwise it
    returns a dictionary whose keys are exactly the category ids and which
    holds, under each class id and in detection order, exactly one record for
    each confirmed detection of that class with a non-empty warped mask: the
    tight bounding box of the mask and the midpoint of the box, in local map
    cells shifted by the window's row and column origin, with the score and
    the class.  Classes without such a detection map to the empty list. *)
Theorem instance_dictionary_of_confirmed
    (ext : Extern) (cfg : Config) (MC : MapConstants)
    (o : tensor3 Q) (oc : Z) (pd : pose) (cam : option (list (plane Q)))
    (pm : tensor3 tval) (pp : pose) (det : Detections)
    (origin : Z * Z * Z * Z) (rows : list (Z * Z * Z * Z)) (locals : det_locals) (n : Z) :
  detection_block ext cfg 1 (Some det) = Ok locals ->
  num_detected_instance locals = Some n ->
  length (hd [] (classes det)) = length (hd [] (scores det)) ->
  Forall (fun c => 0 <= c < num_sem_categories cfg) (detected_instances_classes locals) ->
  let a := agent_of [o] [pd] cam [pm] [pp] (prob_feat locals) 0 in
  let ims := detected_instances_masks locals in
  let ist := instances_st (warp ext cfg MC oc n ims a) in
  (n <= 0 ->
   forward ext cfg MC [o] oc [pd] cam [pm] [pp] (Some det) (Some (origin :: rows))
   = Ok ([current_map ext cfg MC oc n ims a], [current_pose ext a], None))
  /\ (0 < n ->
      exists dict,
        forward ext cfg MC [o] oc [pd] cam [pm] [pp] (Some det) (Some (origin :: rows))
        = Ok ([current_map ext cfg MC oc n ims a], [current_pose ext a], Some dict)
        /\ dict_holds cfg origin ist (detected_instances_classes locals)
             (detected_instances_scores locals) (py_range 0 n) dict).
Proof.
  intros Hd Hn Hlen Hcls a ims ist. split.
  - intros Hle. unfold forward. simpl length. rewrite Hd. cbn [mbind result_bind Py.bind].
    rewrite Hn. cbn [read_local mbind result_bind Py.bind].
    replace (0 <? n) with false by (symmetry; apply Z.ltb_ge; exact Hle). reflexivity.
  - intros Hpos.
    assert (Hsizes : Z.of_nat (length (detected_instances_classes locals)) = n
                     /\ Z.of_nat (length (detected_instances_scores locals)) = n).
    { revert Hd. unfold detection_block.
      destruct (length (hd [] (masks det)) =? 0)%nat.
      - intros E. injection E as <-. simpl in Hn. injection Hn as <-. lia.
      - destruct (score_relevence det) as [sr|]; [|discriminate].
        cbn [mbind result_bind Py.bind mret result_ret]. intros E. injection E as <-.
        simpl in Hn |- *. injection Hn as <-.
        rewrite !select_length; [split; reflexivity | |];
          unfold detect_idx; rewrite length_map; congruence. }
    destruct Hsizes as [Hc Hs].
    destruct (instance_loop_holds cfg origin rows ist (detected_instances_classes locals)
                (detected_instances_scores locals) (py_range 0 n) [] (empty_instances_dict cfg))
      as (dict & Hloop & Hdict).
    { apply empty_dict_holds. }
    { intros i Hi. apply in_py_range in Hi. split; [lia|]. split; [lia|].
      apply (proj1 (List.Forall_forall _ _) Hcls), nth_In. lia. }
    exists dict. split; [|exact Hdict].
    unfold forward. simpl length. rewrite Hd. cbn [mbind result_bind Py.bind].
    rewrite Hn. cbn [read_local mbind result_bind Py.bind].
    replace (0 <? n) with true by (symmetry; apply Z.ltb_lt; exact Hpos).
    fold a. fold ims. fold ist. rewrite Hloop. reflexivity.
Qed.

Lemma instance_dictionary_of_confirmed_witness :
  exists locals,
    detection_block Sample.ext Sample.cfg 1 (Some Sample.det) = Ok locals
    /\ num_detected_instance locals = Some 1
    /\ Forall (fun c => 0 <= c < num_sem_categories Sample.cfg) (detected_instances_classes locals)
    /\ exists dict,
        returned_dict (forward Sample.ext Sample.cfg Sample.MC [Sample.frame] 6 [Sample.still] None
                         [Sample.fresh_map] [Sample.origin] (Some Sample.det) (Some Sample.lmb))
        = Some (Some dict).
Proof.
  eexists. split; [reflexivity|]. split; [reflexivity|].
  assert (Hc : Forall (fun c => 0 <= c < num_sem_categories Sample.cfg) [1])
    by (constructor; [cbn; lia | constructor]).
  split; [exact Hc|].
  destruct (proj2 (instance_dictionary_of_confirmed Sample.ext Sample.cfg Sample.MC
                     Sample.frame 6 Sample.still None Sample.fresh_map Sample.origin Sample.det
                     (100, 124, 200, 224) [] _ 1 eq_refl eq_refl eq_refl Hc) ltac:(lia))
    as (dict & Hf & _).
  exists dict. unfold Sample.lmb. rewrite Hf. reflexivity.
Defined.

(** ** The returned map reads only the map channels and the occupancy block *)

Section FusionReads.

Variable ext : Extern.
Variable cfg : Config.
Variable MC : MapConstants.
Hypothesis Hlayout : layout_ok cfg MC = true.
Variable prev : tensor3 tval.
Variable w w' : warped.
Hypothesis Ht : forall c, 0 <= c < ori_channel_num cfg MC -> translated w c = translated w' c.
Hypothesis Ho : forall j, 0 <= j < NON_SEM_CHANNELS MC - VOXEL_START MC ->
                          occupaid_voxel_st w j = occupaid_voxel_st w' j.

Lemma translated_clamped_reads (c r k : Z) :
  0 <= c < ori_channel_num cfg MC ->
  translated_clamped cfg MC w c r k = translated_clamped cfg MC w' c r k.
Proof. intros Hc. unfold translated_clamped. rewrite (Ht c Hc). reflexivity. Qed.

Lemma prob_clamped_reads (c r k : Z) :
  0 <= c < ori_channel_num cfg MC ->
  prob_clamped cfg MC prev w c r k = prob_clamped cfg MC prev w' c r k.
Proof.
  intros Hc. destruct (layout_facts _ _ Hlayout) as (H1 & H2 & H3 & H4).
  unfold prob_clamped, prob_summed, assign, max_fused.
  rewrite Z.eqb_refl, !(translated_clamped_reads c) by exact Hc.
  rewrite !(translated_clamped_reads (PROBABILITY_MAP MC)) by (unfold ori_channel_num; lia).
  reflexivity.
Qed.

Lemma confident_no_obj_reads (r k : Z) :
  confident_no_obj cfg MC prev w r k = confident_no_obj cfg MC prev w' r k.
Proof.
  destruct (layout_facts _ _ Hlayout) as (H1 & H2 & H3 & H4).
  unfold confident_no_obj. rewrite prob_clamped_reads by (unfold ori_channel_num; lia).
  reflexivity.
Qed.

Lemma updated_reads (j r k : Z) :
  0 <= j < NON_SEM_CHANNELS MC - VOXEL_START MC ->
  updated ext cfg MC prev w j r k = updated ext cfg MC prev w' j r k.
Proof.
  intros Hj. destruct (layout_facts _ _ Hlayout) as (H1 & H2 & H3 & H4).
  assert (Hs : updated_case2 ext cfg MC prev w j r k = updated_case2 ext cfg MC prev w' j r k).
  { unfold updated_case2, updated_case1, assign, need_addition_logit, need_assign_logit,
      is_occupaid, voxel_logit.
    rewrite (Ho j Hj), translated_clamped_reads by (unfold ori_channel_num; lia). reflexivity. }
  rewrite !updated_eq, !updated_clamped_eq, Hs, confident_no_obj_reads. reflexivity.
Qed.

Lemma location_marked_reads (loc : Z * Z) (c r k : Z) :
  0 <= c < ori_channel_num cfg MC ->
  location_marked ext cfg MC prev w loc c r k = location_marked ext cfg MC prev w' loc c r k.
Proof.
  intros Hc. rewrite !(location_marked_cell ext cfg MC Hlayout).
  rewrite !(location_reset_cell ext cfg MC Hlayout).
  destruct (((c =? CURRENT_LOCATION MC) || (c =? CURRENT_LOCATION MC + 1)) && marked cfg loc r k);
    [reflexivity|].
  destruct (c =? CURRENT_LOCATION MC); [reflexivity|].
  destruct ((VOXEL_START MC <=? c) && (c <? NON_SEM_CHANNELS MC)) eqn:E.
  - apply andb_true_iff in E as [E1 E2]. apply Z.leb_le in E1. apply Z.ltb_lt in E2.
    apply updated_reads. lia.
  - unfold prob_overridden, fill, assign.
    rewrite confident_no_obj_reads, prob_clamped_reads by exact Hc. reflexivity.
Qed.

End FusionReads.

(** ** The map channels do not depend on the instance channels *)

Section WarpReads.

Variable ext : Extern.
Variable cfg : Config.
Variable MC : MapConstants.
Hypothesis Hlayout : layout_ok cfg MC = true.
Variable oc : Z.
Hypothesis Hoc : oc = 4 + num_sem_categories cfg.
Hypothesis Hvox : NON_SEM_CHANNELS MC - VOXEL_START MC <= max_mapped_height cfg.
Variable n n' : Z.
Variable ims ims' : list (Z -> Q).
Variable a : agent_in.

Lemma feat_low (c : Z) :
  c < feat_prob_channel oc -> feat ext cfg oc n ims a c = feat ext cfg oc n' ims' a c.
Proof.
  intros Hc. unfold feat.
  replace (feat_prob_channel oc <=? c) with false by (symmetry; apply Z.leb_gt; exact Hc).
  rewrite !andb_false_r. reflexivity.
Qed.

Lemma voxels_low (c : Z) :
  c < feat_prob_channel oc -> voxels ext cfg oc n ims a c = voxels ext cfg oc n' ims' a c.
Proof. intros Hc. unfold voxels. rewrite (feat_low c Hc). reflexivity. Qed.

Lemma feat_prob_channel_eq : feat_prob_channel oc = num_sem_categories cfg + 2.
Proof. unfold feat_prob_channel, feat_ob_channel, feat_all_points_channel. lia. Qed.

Lemma agent_view_reads :
  agent_view ext cfg MC oc n ims a = agent_view ext cfg MC oc n' ims' a.
Proof.
  destruct (layout_facts _ _ Hlayout) as (H1 & H2 & H3 & H4).
  pose proof feat_prob_channel_eq as Hp.
  assert (Hv0 : voxels ext cfg oc n ims a 0 = voxels ext cfg oc n' ims' a 0)
    by (apply voxels_low; lia).
  assert (Hvp : voxels ext cfg oc n ims a (feat_prob_channel oc - 1)
                = voxels ext cfg oc n' ims' a (feat_prob_channel oc - 1))
    by (apply voxels_low; lia).
  extensionality c. extensionality r. extensionality k.
  unfold agent_view, assign.
  destruct (in_slice (ori_channel_num cfg MC) (NON_SEM_CHANNELS MC) (ori_channel_num cfg MC) c
            && window cfg r k) eqn:E6.
  { apply andb_true_iff in E6 as [E6 _].
    apply in_slice_iff in E6; [|lia | unfold ori_channel_num; lia].
    unfold filtered_height_proj. rewrite (voxels_low (1 + (c - NON_SEM_CHANNELS MC)))
      by (unfold ori_channel_num in E6; lia).
    reflexivity. }
  destruct (in_slice (ori_channel_num cfg MC) (VOXEL_START MC) (NON_SEM_CHANNELS MC) c
            && window cfg r k); [rewrite Hvp; reflexivity|].
  destruct ((c =? PROBABILITY_MAP MC) && window cfg r k).
  { unfold prob_logit, prob_map, fp_exp_pred, all_height_proj. rewrite Hv0, Hvp. reflexivity. }
  destruct (in_slice (ori_channel_num cfg MC) (BEEN_CLOSE_MAP MC) (BEEN_CLOSE_MAP MC + 1) c
            && window cfg r k).
  { unfold close_exp, fp_exp_pred, all_height_proj. rewrite Hv0. reflexivity. }
  destruct (in_slice (ori_channel_num cfg MC) (EXPLORED_MAP MC) (EXPLORED_MAP MC + 1) c
            && window cfg r k).
  { unfold fp_exp_pred, all_height_proj. rewrite Hv0. reflexivity. }
  destruct (in_slice (ori_channel_num cfg MC) (OBSTACLE_MAP MC) (OBSTACLE_MAP MC + 1) c
            && window cfg r k); [|reflexivity].
  unfold fp_map_pred, agent_height_proj. rewrite Hv0. reflexivity.
Qed.

Lemma translated_all_reads (c : Z) :
  c < ori_channel_num cfg MC + max_mapped_height cfg ->
  translated_all ext cfg MC oc n ims a c = translated_all ext cfg MC oc n' ims' a c.
Proof.
  intros Hc. unfold translated_all, rotated. do 2 f_equal.
  unfold agent_view_cat. rewrite agent_view_reads.
  destruct (c <? ori_channel_num cfg MC); [reflexivity|].
  replace (c <? ori_channel_num cfg MC + max_mapped_height cfg) with true
    by (symmetry; apply Z.ltb_lt; exact Hc).
  unfold occupaid_voxel. rewrite (voxels_low 0) by (rewrite feat_prob_channel_eq;
    destruct (layout_facts _ _ Hlayout) as (H1 & H2 & H3 & H4); lia).
  reflexivity.
Qed.

Lemma current_map_reads (c r k : Z) :
  0 <= c < ori_channel_num cfg MC ->
  current_map ext cfg MC oc n ims a c r k = current_map ext cfg MC oc n' ims' a c r k.
Proof.
  intros Hc. destruct (layout_facts _ _ Hlayout) as (H1 & H2 & H3 & H4).
  unfold current_map. apply (location_marked_reads ext cfg MC Hlayout); [| |exact Hc].
  - intros c' Hc'. unfold warp. simpl. apply translated_all_reads. lia.
  - intros j Hj. unfold warp. simpl. apply translated_all_reads. lia.
Qed.

End WarpReads.

(** ** A batch of two agents *)

(** The detection block of a batch of two against the blocks of its rows:
    the confirmed instances are those of row 0, and each row has its own
    probability features. *)
Lemma detection_block_pair (ext : Extern) (cfg : Config)
    (s0 s1 : list Q) (c0 c1 : list Z) (k0 k1 : list (plane Q)) (rel : list Q)
    (locals : det_locals) :
  length k0 = length k1 ->
  detection_block ext cfg 2 (Some (mkDetections [s0; s1] [c0; c1] [k0; k1] rel)) = Ok locals ->
  exists pf0 pf1 n1 cls1 scs1 ims1,
    prob_feat locals = [pf0; pf1]
    /\ detection_block ext cfg 1 (Some (mkDetections [s0] [c0] [k0] rel))
       = Ok (mkLocals [pf0] (num_detected_instance locals) (detected_instances_classes locals)
               (detected_instances_scores locals) (detected_instances_masks locals))
    /\ detection_block ext cfg 1 (Some (mkDetections [s1] [c1] [k1] rel))
       = Ok (mkLocals [pf1] (Some n1) cls1 scs1 ims1).
Proof.
  intros Hlen. unfold detection_block. cbn [masks hd].
  rewrite <- Hlen. destruct (length k0 =? 0)%nat.
  - intros E. injection E as <-. cbn. eexists _, _, _, _, _, _.
    split; [reflexivity|]. split; reflexivity.
  - unfold score_relevence. cbn [scores classes relevance combine mapM fst snd].
    destruct (mapM _ (combine s0 c0)) as [sr0|]; [|discriminate].
    cbn [Py.bind].
    destruct (mapM _ (combine s1 c1)) as [sr1|]; [|discriminate].
    cbn. intros E. injection E as <-. cbn.
    eexists _, _, _, _, _, _. split; [reflexivity|]. split; reflexivity.
Qed.

(** C5, the claim as stated fails: the call returns one dictionary, built
    from the detections of batch element 0.  When the first agent has no
    confirmed detection and the second has one, the batch of two returns
    None, while the second agent run alone gets a dictionary. *)
Lemma batch_dictionary_ignores_second_agent :
  returned_dict
    (forward Sample.ext Sample.cfg Sample.MC [Sample.frame; Sample.frame] 6
       [Sample.still; Sample.still] None [Sample.fresh_map; Sample.fresh_map]
       [Sample.origin; Sample.origin] (Some Sample.det_pair) (Some (Sample.lmb ++ Sample.lmb)))
  = Some None
  /\ exists dict,
      returned_dict
        (forward Sample.ext Sample.cfg Sample.MC [Sample.frame] 6 [Sample.still] None
           [Sample.fresh_map] [Sample.origin] (Some Sample.det_second) (Some Sample.lmb))
      = Some (Some dict).
Proof.
  split; [reflexivity|].
  assert (H : match returned_dict
                      (forward Sample.ext Sample.cfg Sample.MC [Sample.frame] 6 [Sample.still] None
                         [Sample.fresh_map] [Sample.origin] (Some Sample.det_second)
                         (Some Sample.lmb))
              with Some (Some _) => True | _ => False end)
    by (vm_compute; exact I).
  destruct (returned_dict _) as [[dict|]|]; try contradiction.
  exists dict. reflexivity.
Qed.

(** C5, amended. For a batch of two agents whose detection rows have the
    same number of instances: the map and the pose returned for agent 0, and
    the instance dictionary of the call, are those of agent 0 run alone; the
    pose returned for agent 1 and every channel of its map are those of agent
    1 run alone, whenever that call returns.  The dictionary is not a
    per-agent output: it never reflects the detections of agent 1. *)
Theorem batch_of_two_agents
    (ext : Extern) (cfg : Config) (MC : MapConstants)
    (o0 o1 : tensor3 Q) (oc : Z) (d0 d1 : pose) (cams : option (plane Q * plane Q))
    (m0 m1 : tensor3 tval) (p0 p1 : pose)
    (s0 s1 : list Q) (c0 c1 : list Z) (k0 k1 : list (plane Q)) (rel : list Q)
    (lmb lmb1 : option (list (Z * Z * Z * Z)))
    (maps : list (tensor3 tval)) (poses : list pose) (dict : option (gmap Z (list ins_obj))) :
  layout_ok cfg MC = true ->
  oc = 4 + num_sem_categories cfg ->
  NON_SEM_CHANNELS MC - VOXEL_START MC <= max_mapped_height cfg ->
  length k0 = length k1 ->
  forward ext cfg MC [o0; o1] oc [d0; d1] (option_map (fun c => [c.1; c.2]) cams)
    [m0; m1] [p0; p1] (Some (mkDetections [s0; s1] [c0; c1] [k0; k1] rel)) lmb
  = Ok (maps, poses, dict) ->
  exists mp0 mp1 ps0 ps1,
    maps = [mp0; mp1] /\ poses = [ps0; ps1]
    /\ forward ext cfg MC [o0] oc [d0] (option_map (fun c => [c.1]) cams) [m0] [p0]
         (Some (mkDetections [s0] [c0] [k0] rel)) lmb
       = Ok ([mp0], [ps0], dict)
    /\ (forall maps1 poses1 dict1,
          forward ext cfg MC [o1] oc [d1] (option_map (fun c => [c.2]) cams) [m1] [p1]
            (Some (mkDetections [s1] [c1] [k1] rel)) lmb1
          = Ok (maps1, poses1, dict1) ->
          poses1 = [ps1]
          /\ exists mp1',
              maps1 = [mp1']
              /\ forall c r k, 0 <= c < ori_channel_num cfg MC -> mp1' c r k = mp1 c r k).
Proof.
  intros Hl Hoc Hvox Hlen Hf.
  apply forward_inv in Hf as (locals & n & Hd & Hn & -> & -> & Hdict).
  cbn [length] in Hd.
  destruct (detection_block_pair ext cfg s0 s1 c0 c1 k0 k1 rel locals Hlen Hd)
    as (pf0 & pf1 & n1 & cls1 & scs1 & ims1 & Hpf & Hd0 & Hd1).
  assert (Ha0 : agent_of [o0; o1] [d0; d1] (option_map (fun c => [c.1; c.2]) cams)
                  [m0; m1] [p0; p1] (prob_feat locals) 0
                = agent_of [o0] [d0] (option_map (fun c => [c.1]) cams) [m0] [p0] [pf0] 0)
    by (rewrite Hpf; unfold agent_of; destruct cams; reflexivity).
  assert (Ha1 : agent_of [o0; o1] [d0; d1] (option_map (fun c => [c.1; c.2]) cams)
                  [m0; m1] [p0; p1] (prob_feat locals) 1
                = agent_of [o1] [d1] (option_map (fun c => [c.2]) cams) [m1] [p1] [pf1] 0)
    by (rewrite Hpf; unfold agent_of; destruct cams; reflexivity).
  cbn [length seq map]. rewrite Ha0, Ha1.
  eexists _, _, _, _. split; [reflexivity|]. split; [reflexivity|]. split.
  - unfold forward. cbn [length]. rewrite Hd0. cbn [mbind result_bind Py.bind].
    cbn [num_detected_instance prob_feat detected_instances_masks detected_instances_classes
         detected_instances_scores].
    rewrite Hn. cbn [read_local mbind result_bind Py.bind seq map].
    rewrite Ha0 in Hdict. destruct (0 <? n).
    + destruct Hdict as (dd & -> & ->). reflexivity.
    + rewrite Hdict. reflexivity.
  - intros maps1 poses1 dict1 H1.
    apply forward_inv in H1 as (l1 & n1' & Hd1' & Hn1' & -> & -> & _).
    cbn [length] in Hd1'. rewrite Hd1 in Hd1'. injection Hd1' as <-.
    cbn [seq map prob_feat detected_instances_masks].
    split; [reflexivity|]. eexists. split; [reflexivity|].
    intros c r k Hc. apply (current_map_reads ext cfg MC Hl oc Hoc Hvox). exact Hc.
Qed.

Lemma batch_of_two_agents_witness :
  layout_ok Sample.cfg Sample.MC = true
  /\ NON_SEM_CHANNELS Sample.MC - VOXEL_START Sample.MC <= max_mapped_height Sample.cfg
  /\ exists maps poses dict,
      forward Sample.ext Sample.cfg Sample.MC [Sample.frame; Sample.frame] 6
        [Sample.still; Sample.still] None [Sample.fresh_map; Sample.fresh_map]
        [Sample.origin; Sample.origin] (Some Sample.det_pair) (Some Sample.lmb)
      = Ok (maps, poses, dict)
      /\ exists mp0 ps0,
          forward Sample.ext Sample.cfg Sample.MC [Sample.frame] 6 [Sample.still] None
            [Sample.fresh_map] [Sample.origin] (Some Sample.det_weak) (Some Sample.lmb)
          = Ok ([mp0], [ps0], dict).
Proof.
  split; [reflexivity|]. split; [vm_compute; discriminate|].
  eexists _, _, _. split; [reflexivity|].
  destruct (batch_of_two_agents Sample.ext Sample.cfg Sample.MC Sample.frame Sample.frame 6
              Sample.still Sample.still None Sample.fresh_map Sample.fresh_map
              Sample.origin Sample.origin [3 # 10] [9 # 10] [0] [1]
              [Sample.full_mask] [Sample.full_mask] [1%Q; 7 # 10]
              (Some Sample.lmb) (Some Sample.lmb) _ _ _
              eq_refl eq_refl ltac:(vm_compute; discriminate) eq_refl eq_refl)
    as (mp0 & mp1 & ps0 & ps1 & Hm & Hp & H0 & _).
  exists mp0, ps0. exact H0.
Defined.

(** ** The dictionary on the small configuration *)

(** The confirmed detection of class 1 lands in the map cell (14, 9); with
    the window origin (100, 200) its record has the box (114, 114, 209, 209).
    Class 0 has no confirmed detection and maps to the empty list. *)
Example sample_dictionary :
  match returned_dict
          (forward Sample.ext Sample.cfg Sample.MC [Sample.frame] 6 [Sample.still] None
             [Sample.fresh_map] [Sample.origin] (Some Sample.det) (Some Sample.lmb))
  with
  | Some (Some d) =>
      d !! 1 = Some [mkIns (114, 114, 209, 209) (228 # 2, 418 # 2)%Q (9 # 10) 1]
      /\ d !! 0 = Some []
      /\ d !! 2 = None
  | _ => False
  end.
Proof. vm_compute. repeat split. Qed.

(** The recorded centre is the midpoint of the box, not the mean of the
    cells of the mask: for the L-shaped mask the box is rows 0..1, columns
    0..2 and the centre (1/2, 1), while the cells average to (1/4, 3/4). *)
Example center_is_box_midpoint :
  nonzero (map_side Sample.cfg) Sample.l_mask = [(0, 0); (0, 1); (0, 2); (1, 0)]
  /\ match instance_turn Sample.cfg (Some [(0, 0, 0, 0)]) (fun _ => Sample.l_mask) [0] [1%Q]
             (empty_instances_dict Sample.cfg) 0
     with
     | Ok d => d !! 0 = Some [mkIns (0, 1, 0, 2) (1 # 2, 2 # 2)%Q 1 0]
     | Raise _ => False
     end.
Proof. split; vm_compute; reflexivity. Qed.

(** * Further properties of the fusion *)

(** ** Flags stay flags *)

Lemma tmax_unit (q x : Q) :
  (0 <= q)%Q -> (q <= 1)%Q -> in_range 0 1 (tmax (Fin q) (Fin (Qclamp 0 1 x))).
Proof.
  intros H0 H1. destruct (Qclamp_bounds 0 1 x) as [Hc0 Hc1]; [discriminate|].
  exists (Qmax q (Qclamp 0 1 x)). split; [reflexivity|]. split.
  - eapply Qle_trans; [exact H0 | apply Q.le_max_l].
  - apply Q.max_lub; assumption.
Qed.

(** X1. Along every run of calls, a cell of the obstacle, explored, been-close,
    per-category or past-location channel that starts in [0, 1] stays in
    [0, 1]; and the current-location channel of every returned map holds only
    0 and 1, whatever the previous map held. *)
Theorem flags_stay_in_unit_interval
    (ext : Extern) (cfg : Config) (MC : MapConstants)
    (e : nat) (m0 m1 : tensor3 tval) (c r k : Z) :
  layout_ok cfg MC = true ->
  c = OBSTACLE_MAP MC \/ c = EXPLORED_MAP MC \/ c = BEEN_CLOSE_MAP MC
  \/ c = CURRENT_LOCATION MC + 1
  \/ NON_SEM_CHANNELS MC <= c < NON_SEM_CHANNELS MC + num_sem_categories cfg ->
  in_range 0 1 (m0 c r k) ->
  rtc (forward_step ext cfg MC e) m0 m1 ->
  in_range 0 1 (m1 c r k)
  /\ forall m2, forward_step ext cfg MC e m1 m2 ->
                m2 (CURRENT_LOCATION MC) r k = Fin 0 \/ m2 (CURRENT_LOCATION MC) r k = Fin 1.
Proof.
  intros Hl Hc H0 Hrun. split.
  - induction Hrun as [|x y z (w & loc & Hxy) _ IH]; [exact H0|].
    apply IH. apply forward_fuses_map in Hxy. subst y.
    destruct H0 as (q & Hq & Hq0 & Hq1).
    destruct Hc as [Hc|[Hc|[Hc|[Hc|Hc]]]].
    1-3: rewrite (fused_flag_cell ext cfg MC Hl) by tauto; rewrite Hq; apply tmax_unit; assumption.
    + subst c. rewrite (fused_trail_cell ext cfg MC Hl).
      destruct (marked cfg loc r k).
      * exists 1%Q. split; [reflexivity|]. split; discriminate.
      * rewrite Hq. apply tmax_unit; assumption.
    + rewrite (fused_flag_cell ext cfg MC Hl) by (unfold ori_channel_num; tauto).
      rewrite Hq. apply tmax_unit; assumption.
  - intros m2 (w & loc & H). apply forward_fuses_map in H. subst m2.
    rewrite (fused_location_cell ext cfg MC Hl). destruct (marked cfg loc r k); tauto.
Qed.

Lemma flags_stay_in_unit_interval_witness :
  layout_ok Sample.cfg Sample.MC = true
  /\ in_range 0 1 (Sample.fresh_map 1 14 9)
  /\ in_range 0 1 (Sample.step (Sample.step Sample.fresh_map) 1 14 9).
Proof.
  assert (H0 : in_range 0 1 (Sample.fresh_map 1 14 9)).
  { exists 0%Q. split; [reflexivity|]. split; discriminate. }
  split; [reflexivity|]. split; [exact H0|].
  refine (proj1 (flags_stay_in_unit_interval Sample.ext Sample.cfg Sample.MC 0 Sample.fresh_map
                   (Sample.step (Sample.step Sample.fresh_map)) 1 14 9 _ _ H0 _)).
  - reflexivity.
  - right. left. reflexivity.
  - eapply rtc_l; [apply sample_step | apply rtc_once, sample_step].
Defined.

(** ** A voxel cell is never unassigned again *)

(** X2. A voxel cell that holds a number keeps holding a number along every run
    of calls: no call puts the unassigned mark (or NaN) back. *)
Theorem assigned_voxel_stays_assigned
    (ext : Extern) (cfg : Config) (MC : MapConstants)
    (e : nat) (m0 m1 : tensor3 tval) (j r k : Z) :
  layout_ok cfg MC = true ->
  0 <= j -> VOXEL_START MC + j < NON_SEM_CHANNELS MC ->
  (exists q, m0 (VOXEL_START MC + j) r k = Fin q) ->
  rtc (forward_step ext cfg MC e) m0 m1 ->
  exists q, m1 (VOXEL_START MC + j) r k = Fin q.
Proof.
  intros Hl Hj Hj' H0 Hrun.
  induction Hrun as [|x y z (w & loc & Hxy) _ IH]; [exact H0|].
  apply IH. apply forward_fuses_map in Hxy. subst y.
  destruct H0 as (q & Hq).
  rewrite (fused_voxel_cell ext cfg MC Hl) by lia. rewrite updated_eq.
  destruct (confident_no_obj cfg MC x w r k && _); [eexists; reflexivity|].
  rewrite updated_clamped_eq.
  destruct (is_occupaid w j r k) eqn:Ho.
  - rewrite updated_case2_occupied_assigned by (try exact Ho; rewrite Hq; reflexivity).
    rewrite Hq. simpl. eexists. reflexivity.
  - rewrite updated_case2_unoccupied by exact Ho. rewrite Hq. simpl. eexists. reflexivity.
Qed.

Lemma assigned_voxel_stays_assigned_witness :
  layout_ok Sample.cfg Sample.MC = true
  /\ 0 <= 12 /\ VOXEL_START Sample.MC + 12 < NON_SEM_CHANNELS Sample.MC
  /\ (exists q, Sample.assigned_map (VOXEL_START Sample.MC + 12) 0 0 = Fin q)
  /\ exists q, Sample.step Sample.assigned_map (VOXEL_START Sample.MC + 12) 0 0 = Fin q.
Proof.
  assert (H0 : exists q, Sample.assigned_map (VOXEL_START Sample.MC + 12) 0 0 = Fin q)
    by (eexists; reflexivity).
  split; [reflexivity|]. split; [lia|]. split; [reflexivity|]. split; [exact H0|].
  apply (assigned_voxel_stays_assigned Sample.ext Sample.cfg Sample.MC 0 Sample.assigned_map
           (Sample.step Sample.assigned_map) 12 0 0).
  - reflexivity.
  - lia.
  - reflexivity.
  - exact H0.
  - apply rtc_once, sample_step.
Defined.

(** ** The fusion works cell by cell *)

(** X3. The column [(r, k)] of the returned map is computed from the column
    [(r, k)] of the previous map and of the warped observation alone (and from
    the agent's cell): no call moves information between map cells. *)
Theorem fusion_is_cellwise
    (ext : Extern) (cfg : Config) (MC : MapConstants)
    (prev prev' : tensor3 tval) (w w' : warped) (loc : Z * Z) (r k : Z) :
  (forall c, prev c r k = prev' c r k) ->
  (forall c, translated w c r k = translated w' c r k) ->
  (forall j, occupaid_voxel_st w j r k = occupaid_voxel_st w' j r k) ->
  forall c, location_marked ext cfg MC prev w loc c r k
            = location_marked ext cfg MC prev' w' loc c r k.
Proof.
  intros Hp Ht Ho c.
  unfold location_marked, location_reset, voxel_written, updated, updated_clamped,
    is_post_occupaid, updated_case2, updated_case1, need_addition_logit, need_assign_logit,
    is_pre_empty, prev_voxel, is_occupaid, voxel_logit, prob_overridden, confident_no_obj,
    prob_clamped, prob_summed, max_fused, translated_clamped, fill, assign.
  rewrite !Hp, !Ht, !Ho. reflexivity.
Qed.

Lemma fusion_is_cellwise_witness :
  let other : tensor3 tval :=
    fun c r k => if (r =? 14) && (k =? 9) then Sample.fresh_map c r k else Fin 5 in
  Sample.step Sample.fresh_map (PROBABILITY_MAP Sample.MC) 14 9
  = location_marked Sample.ext Sample.cfg Sample.MC other
      (Sample.seen Sample.fresh_map) Sample.cell (PROBABILITY_MAP Sample.MC) 14 9.
Proof.
  intros other.
  apply (fusion_is_cellwise Sample.ext Sample.cfg Sample.MC Sample.fresh_map other
           (Sample.seen Sample.fresh_map) (Sample.seen Sample.fresh_map) Sample.cell 14 9).
  - intros c'. reflexivity.
  - intros c'. reflexivity.
  - intros j. reflexivity.
Defined.

(** ** Which cells the location marking reaches *)

Lemma in_slice5 (M y r : Z) :
  5 <= M -> in_slice M (y - 2) (y + 3) r = true <-> slice5 M y r.
Proof.
  intros HM. unfold in_slice, slice_bound, slice5.
  rewrite !andb_true_iff, !Z.leb_le, !Z.ltb_lt.
  destruct (Z.ltb_spec (y - 2) 0), (Z.ltb_spec (y + 3) 0); lia.
Qed.

(** X4. On a map of side at least 5, the current-location channel of the returned
    map is 1 exactly on the rows selected for [y] and the columns selected
    for [x] as [slice5] describes, and 0 elsewhere.  In particular an agent
    whose cell has [x] or [y] between -3 and 1 leaves no mark at all, and an
    agent at a negative cell beyond -3 marks cells at the opposite border. *)
Theorem location_mark_cases
    (ext : Extern) (cfg : Config) (MC : MapConstants)
    (e : nat) (prev : tensor3 tval) (w : warped) (loc : Z * Z) (m : tensor3 tval) (r k : Z) :
  layout_ok cfg MC = true ->
  forward_fuses ext cfg MC e prev w loc m ->
  5 <= map_side cfg ->
  (slice5 (map_side cfg) loc.2 r /\ slice5 (map_side cfg) loc.1 k ->
   m (CURRENT_LOCATION MC) r k = Fin 1)
  /\ (~ (slice5 (map_side cfg) loc.2 r /\ slice5 (map_side cfg) loc.1 k) ->
      m (CURRENT_LOCATION MC) r k = Fin 0)
  /\ (-3 <= loc.1 <= 1 \/ -3 <= loc.2 <= 1 -> m (CURRENT_LOCATION MC) r k = Fin 0).
Proof.
  intros Hl Hf HM. apply forward_fuses_map in Hf. subst m.
  rewrite (fused_location_cell ext cfg MC Hl).
  assert (Hm : marked cfg loc r k = true
               <-> slice5 (map_side cfg) loc.2 r /\ slice5 (map_side cfg) loc.1 k).
  { unfold marked. rewrite andb_true_iff, !in_slice5 by exact HM. reflexivity. }
  split; [|split].
  - intros H. apply Hm in H. rewrite H. reflexivity.
  - intros H. destruct (marked cfg loc r k); [exfalso; apply H, Hm; reflexivity | reflexivity].
  - intros H. destruct (marked cfg loc r k); [|reflexivity].
    destruct (proj1 Hm eq_refl) as [Hr Hk]. unfold slice5 in Hr, Hk. lia.
Qed.

Lemma location_mark_cases_witness :
  layout_ok Sample.cfg Sample.MC = true
  /\ 5 <= map_side Sample.cfg
  /\ location_marked Sample.ext Sample.cfg Sample.MC Sample.fresh_map
       (Sample.seen Sample.fresh_map) Sample.cell (CURRENT_LOCATION Sample.MC) 12 12 = Fin 1.
Proof.
  split; [reflexivity|]. split; [vm_compute; discriminate|].
  refine (proj1 (location_mark_cases Sample.ext Sample.cfg Sample.MC 0 Sample.fresh_map
                   (Sample.seen Sample.fresh_map) Sample.cell (Sample.step Sample.fresh_map)
                   12 12 _ _ _) _).
  - reflexivity.
  - apply sample_call.
  - vm_compute. discriminate.
  - unfold slice5. vm_compute. intuition discriminate.
Defined.

(** ** A call that brings no evidence for a cell *)

Lemma Qclamp_unit_zero (t : Q) : (t == 0)%Q -> (Qclamp 0 1 t == 0)%Q.
Proof.
  intros Ht. unfold Qclamp.
  assert (Hm : (Qmax t 0 == 0)%Q) by (apply Q.max_r; rewrite Ht; apply Qle_refl).
  rewrite (Q.min_l (Qmax t 0) 1) by (rewrite Hm; discriminate). exact Hm.
Qed.

(** X5. Where the warped observation of a call is zero, the call leaves a valid
    map cell as it was: a flag that is not negative keeps its value, and so
    do, unless the been-close flag of the column is 1 after the call, a
    probability in [-10, 10] and a voxel cell that is not occupied and is
    either unassigned or in [-10, 10]. *)
Theorem no_evidence_keeps_cell
    (ext : Extern) (cfg : Config) (MC : MapConstants)
    (e : nat) (prev : tensor3 tval) (w : warped) (loc : Z * Z) (m : tensor3 tval) (r k : Z) :
  layout_ok cfg MC = true ->
  forward_fuses ext cfg MC e prev w loc m ->
  (forall c q,
      c = OBSTACLE_MAP MC \/ c = EXPLORED_MAP MC \/ c = BEEN_CLOSE_MAP MC
      \/ NON_SEM_CHANNELS MC <= c < NON_SEM_CHANNELS MC + num_sem_categories cfg ->
      (translated w c r k == 0)%Q -> prev c r k = Fin q -> (0 <= q)%Q ->
      teqb (m c r k) (prev c r k) = true)
  /\ (forall p,
        (translated w (PROBABILITY_MAP MC) r k == 0)%Q ->
        prev (PROBABILITY_MAP MC) r k = Fin p -> (-10 <= p)%Q -> (p <= 10)%Q ->
        teqb (m (BEEN_CLOSE_MAP MC) r k) (Fin 1) = false ->
        teqb (m (PROBABILITY_MAP MC) r k) (prev (PROBABILITY_MAP MC) r k) = true)
  /\ (forall j,
        0 <= j -> VOXEL_START MC + j < NON_SEM_CHANNELS MC ->
        is_occupaid w j r k = false ->
        teqb (m (BEEN_CLOSE_MAP MC) r k) (Fin 1) = false ->
        (isinf (prev (VOXEL_START MC + j) r k) = true ->
         m (VOXEL_START MC + j) r k = prev (VOXEL_START MC + j) r k)
        /\ (forall v, prev (VOXEL_START MC + j) r k = Fin v -> (-10 <= v)%Q -> (v <= 10)%Q ->
                      teqb (m (VOXEL_START MC + j) r k) (prev (VOXEL_START MC + j) r k) = true)).
Proof.
  intros Hl Hf.
  pose proof (confident_is_returned_flag ext cfg MC Hl e prev w loc m r k Hf) as Hflag.
  apply forward_fuses_map in Hf. split; [|split].
  - intros c q Hc Ht Hq H0. subst m.
    rewrite (fused_flag_cell ext cfg MC Hl) by (unfold ori_channel_num; tauto).
    rewrite Hq. simpl. apply Qeq_bool_iff. apply Q.max_l.
    rewrite (Qclamp_unit_zero _ Ht). exact H0.
  - intros p Ht Hp H1 H2 Hb. rewrite <- Hflag in Hb. subst m.
    rewrite (fused_prob_cell ext cfg MC Hl), Hb, Hp. simpl. apply Qeq_bool_iff.
    rewrite Qclamp_within; rewrite Ht, Qplus_0_r; try assumption. reflexivity.
  - intros j Hj Hj' Ho Hb. rewrite <- Hflag in Hb. subst m.
    rewrite (fused_voxel_cell ext cfg MC Hl) by lia.
    rewrite updated_eq, Hb, updated_clamped_eq, updated_case2_unoccupied by exact Ho.
    simpl. split.
    + intros Hi. rewrite Hi. reflexivity.
    + intros v Hv H1 H2. rewrite Hv. simpl. apply Qeq_bool_iff.
      apply Qclamp_within; assumption.
Qed.

Lemma no_evidence_keeps_cell_witness :
  layout_ok Sample.cfg Sample.MC = true
  /\ teqb (Sample.step Sample.assigned_map (VOXEL_START Sample.MC + 12) 0 0)
          (Sample.assigned_map (VOXEL_START Sample.MC + 12) 0 0) = true.
Proof.
  split; [reflexivity|].
  refine (proj2 (proj2 (proj2 (no_evidence_keeps_cell Sample.ext Sample.cfg Sample.MC 0
                                 Sample.assigned_map (Sample.seen Sample.assigned_map) Sample.cell
                                 (Sample.step Sample.assigned_map) 0 0 _ _))
                         12 _ _ _ _) 3%Q _ _ _).
  - reflexivity.
  - apply sample_call.
  - lia.
  - reflexivity.
  - reflexivity.
  - reflexivity.
  - reflexivity.
  - discriminate.
  - discriminate.
Defined.

(** ** The direction in which a run of calls moves the probability *)

Lemma forward_run_rtc ext cfg MC e m0 ws m1 :
  forward_run ext cfg MC e m0 ws m1 -> rtc (forward_step ext cfg MC e) m0 m1.
Proof.
  induction 1 as [m|prev w loc m ws m' Hf _ IH]; [apply rtc_refl|].
  eapply rtc_l; [|exact IH]. exists w, loc. exact Hf.
Qed.

Lemma Qclamp_up (p x : Q) :
  (p <= 10)%Q -> (p <= x)%Q -> (p <= Qclamp (-10) 10 x)%Q.
Proof.
  intros H1 H2. unfold Qclamp. apply Q.min_glb; [|exact H1].
  apply Qle_trans with x; [exact H2 | apply Q.le_max_l].
Qed.

Lemma Qclamp_down (p x : Q) :
  (-10 <= p)%Q -> (x <= p)%Q -> (Qclamp (-10) 10 x <= p)%Q.
Proof.
  intros H1 H2. unfold Qclamp.
  apply Qle_trans with (Qmax x (-10)); [apply Q.le_min_l|].
  apply Q.max_lub; assumption.
Qed.

(** X6. In a column whose been-close flag is not 1 at the end of a run of
    calls, the probability cell moves with the evidence and never against
    it: if the warped probability feature of the cell is non-negative in
    every call of the run, the cell ends at least as high as it started, and
    if it is non-positive in every call, at most as high.  The cell starts in
    [-10, 10].  (The sums are exact here; the statement only uses that
    adding a non-negative number does not lower a value and that the clamp
    is monotone, which rounding to float32 preserves.) *)
Theorem probability_follows_sign_of_evidence
    (ext : Extern) (cfg : Config) (MC : MapConstants)
    (e : nat) (m0 : tensor3 tval) (ws : list warped) (m1 : tensor3 tval) (r k : Z) (p0 : Q) :
  layout_ok cfg MC = true ->
  forward_run ext cfg MC e m0 ws m1 ->
  m0 (PROBABILITY_MAP MC) r k = Fin p0 ->
  (-10 <= p0)%Q -> (p0 <= 10)%Q ->
  teqb (m1 (BEEN_CLOSE_MAP MC) r k) (Fin 1) = false ->
  exists p1,
    m1 (PROBABILITY_MAP MC) r k = Fin p1
    /\ (Forall (fun w => (0 <= translated w (PROBABILITY_MAP MC) r k)%Q) ws -> (p0 <= p1)%Q)
    /\ (Forall (fun w => (translated w (PROBABILITY_MAP MC) r k <= 0)%Q) ws -> (p1 <= p0)%Q).
Proof.
  intros Hl Hrun. revert p0.
  induction Hrun as [m|prev w loc m ws m' Hf Hrun IH]; intros p0 Hp Hlo Hhi Hb.
  - exists p0. split; [exact Hp|]. split; intros _; apply Qle_refl.
  - assert (Hm : teqb (m (BEEN_CLOSE_MAP MC) r k) (Fin 1) = false).
    { destruct (teqb (m (BEEN_CLOSE_MAP MC) r k) (Fin 1)) eqn:E; [|reflexivity].
      rewrite (flag_one_run ext cfg MC Hl e m m' r k (forward_run_rtc _ _ _ _ _ _ _ Hrun) E) in Hb.
      discriminate. }
    rewrite <- (confident_is_returned_flag ext cfg MC Hl e prev w loc m r k Hf) in Hm.
    pose proof (forward_fuses_map _ _ _ _ _ _ _ _ Hf) as Hmap.
    assert (Hstep : m (PROBABILITY_MAP MC) r k
                    = Fin (Qclamp (-10) 10 (p0 + translated w (PROBABILITY_MAP MC) r k))).
    { rewrite Hmap, (fused_prob_cell ext cfg MC Hl), Hm, Hp. reflexivity. }
    destruct (Qclamp_bounds (-10) 10 (p0 + translated w (PROBABILITY_MAP MC) r k))
      as [Hc1 Hc2]; [discriminate|].
    destruct (IH _ Hstep Hc1 Hc2 Hb) as (p1 & Hp1 & Hup & Hdown).
    exists p1. split; [exact Hp1|]. split; intros Hall; inversion Hall as [|x l Hx Hrest]; subst.
    + eapply Qle_trans; [|apply Hup, Hrest]. apply Qclamp_up; [exact Hhi | lra].
    + eapply Qle_trans; [apply Hdown, Hrest|]. apply Qclamp_down; [exact Hlo | lra].
Qed.

Lemma probability_follows_sign_of_evidence_witness :
  exists p1,
    Sample.step (Sample.step Sample.fresh_map) (PROBABILITY_MAP Sample.MC) 14 9 = Fin p1
    /\ (0 <= p1)%Q.
Proof.
  destruct (probability_follows_sign_of_evidence Sample.ext Sample.cfg Sample.MC 0
              Sample.fresh_map
              [Sample.seen Sample.fresh_map; Sample.seen (Sample.step Sample.fresh_map)]
              (Sample.step (Sample.step Sample.fresh_map)) 14 9 0%Q eq_refl
              (run_cons _ _ _ _ _ _ _ _ _ _ (sample_call _)
                 (run_cons _ _ _ _ _ _ _ _ _ _ (sample_call _) (run_nil _ _ _ _ _)))
              eq_refl ltac:(discriminate) ltac:(discriminate) eq_refl)
    as (p1 & Hp1 & Hup & _).
  exists p1. split; [exact Hp1|]. apply Hup.
  repeat constructor; vm_compute; discriminate.
Defined.

(** ** The instance loop when it cannot place a record *)

Lemma instance_turn_empty (cfg : Config) lmb (ist : tensor3 Q) cls scs d (i : Z) :
  nonempty_mask (map_side cfg) (ist i) = false ->
  instance_turn cfg lmb ist cls scs d i = Ok d.
Proof.
  intros H. unfold instance_turn. fold (nonempty_mask (map_side cfg) (ist i)).
  rewrite H. reflexivity.
Qed.

Lemma instance_loop_all_empty (cfg : Config) lmb (ist : tensor3 Q) cls scs d (turns : list Z) :
  (forall i, In i turns -> nonempty_mask (map_side cfg) (ist i) = false) ->
  instance_loop cfg lmb ist cls scs d turns = Ok d.
Proof.
  induction turns as [|i rest IH]; intros H; [reflexivity|].
  simpl. rewrite instance_turn_empty by (apply H; left; reflexivity).
  cbn [mbind result_bind Py.bind]. apply IH. intros j Hj. apply H. right. exact Hj.
Qed.

Lemma instance_loop_no_lmb (cfg : Config) (ist : tensor3 Q) cls scs d (turns : list Z) :
  (exists i, In i turns /\ nonempty_mask (map_side cfg) (ist i) = true) ->
  instance_loop cfg None ist cls scs d turns = Raise TypeError.
Proof.
  induction turns as [|i rest IH]; intros (j & Hj & Hne); [destruct Hj|].
  simpl. destruct (nonempty_mask (map_side cfg) (ist i)) eqn:E.
  - unfold instance_turn. fold (nonempty_mask (map_side cfg) (ist i)). rewrite E. reflexivity.
  - rewrite instance_turn_empty by exact E. cbn [mbind result_bind Py.bind].
    apply IH. exists j. split; [|exact Hne].
    destruct Hj as [->|Hj]; [congruence | exact Hj].
Qed.

(** X7. [lmb] is only read where a confirmed detection has a non-empty warped
    mask.  A call that leaves [lmb] at its default None raises TypeError as
    soon as one confirmed detection is visible in the local map; while every
    warped mask is empty the call returns, whatever [lmb] is, and its
    dictionary lists every category with no record. *)
Theorem forward_reads_lmb_only_for_visible_instances
    (ext : Extern) (cfg : Config) (MC : MapConstants)
    (obs : list (tensor3 Q)) (oc : Z) (pd : list pose) (cam : option (list (plane Q)))
    (pm : list (tensor3 tval)) (pp : list pose) (det : Detections)
    (locals : det_locals) (n : Z) :
  detection_block ext cfg (length obs) (Some det) = Ok locals ->
  num_detected_instance locals = Some n ->
  0 < n ->
  let ist := instances_st (warp ext cfg MC oc n (detected_instances_masks locals)
                             (agent_of obs pd cam pm pp (prob_feat locals) 0)) in
  ((exists i, 0 <= i < n /\ nonempty_mask (map_side cfg) (ist i) = true) ->
   forward ext cfg MC obs oc pd cam pm pp (Some det) None = Raise TypeError)
  /\ ((forall i, 0 <= i < n -> nonempty_mask (map_side cfg) (ist i) = false) ->
      forall lmb,
        returned_dict (forward ext cfg MC obs oc pd cam pm pp (Some det) lmb)
        = Some (Some (empty_instances_dict cfg))).
Proof.
  intros Hd Hn Hpos ist.
  assert (Hlt : (0 <? n) = true) by (apply Z.ltb_lt; exact Hpos).
  split.
  - intros (i & Hi & Hne). unfold forward. rewrite Hd. cbn [mbind result_bind Py.bind].
    rewrite Hn. cbn [read_local mbind result_bind Py.bind]. rewrite Hlt.
    fold ist. rewrite instance_loop_no_lmb; [reflexivity|].
    exists i. split; [apply in_py_range; lia | exact Hne].
  - intros Hall lmb. unfold forward. rewrite Hd. cbn [mbind result_bind Py.bind].
    rewrite Hn. cbn [read_local mbind result_bind Py.bind]. rewrite Hlt.
    fold ist. rewrite instance_loop_all_empty; [reflexivity|].
    intros i Hi. apply Hall. apply in_py_range in Hi. lia.
Qed.

Lemma forward_reads_lmb_only_for_visible_instances_witness :
  forward Sample.ext Sample.cfg Sample.MC [Sample.frame] 6 [Sample.still] None
    [Sample.fresh_map] [Sample.origin] (Some Sample.det) None
  = Raise TypeError.
Proof.
  refine (proj1 (forward_reads_lmb_only_for_visible_instances Sample.ext Sample.cfg Sample.MC
                   [Sample.frame] 6 [Sample.still] None [Sample.fresh_map] [Sample.origin]
                   Sample.det _ 1 _ _ _) _).
  - reflexivity.
  - reflexivity.
  - lia.
  - exists 0. split; [lia | vm_compute; reflexivity].
Defined.

Lemma empty_dict_keys (cfg : Config) : category_keys cfg (empty_instances_dict cfg).
Proof.
  intros k. pose proof (empty_dict_holds cfg (0, 0, 0, 0) (fun _ _ _ => 0%Q) [] [] k) as [H1 H2].
  split.
  - intros [objs Hk]. destruct (decide (0 <= k < num_sem_categories cfg)) as [H|H]; [exact H|].
    rewrite (H2 H) in Hk. discriminate.
  - intros Hk. destruct (H1 Hk) as (objs & Ho & _). exists objs. exact Ho.
Qed.

Lemma instance_turn_keys (cfg : Config) (origin : Z * Z * Z * Z) (rows : list (Z * Z * Z * Z))
    (ist : tensor3 Q) (cls : list Z) (scs : list Q) (d : gmap Z (list ins_obj)) (i : Z) :
  category_keys cfg d ->
  0 <= i < Z.of_nat (length cls) -> 0 <= i < Z.of_nat (length scs) ->
  (nonempty_mask (map_side cfg) (ist i) = true
   /\ ~ 0 <= nth (Z.to_nat i) cls 0 < num_sem_categories cfg
   /\ instance_turn cfg (Some (origin :: rows)) ist cls scs d i = Raise KeyError)
  \/ ((nonempty_mask (map_side cfg) (ist i) = false
       \/ 0 <= nth (Z.to_nat i) cls 0 < num_sem_categories cfg)
      /\ exists d', instance_turn cfg (Some (origin :: rows)) ist cls scs d i = Ok d'
                    /\ category_keys cfg d').
Proof.
  intros Hd Hic His. unfold instance_turn. fold (nonempty_mask (map_side cfg) (ist i)).
  destruct (nonempty_mask (map_side cfg) (ist i)) eqn:Hne.
  - change (index (origin :: rows) 0) with (Ok (A := Z * Z * Z * Z) origin).
    cbn [mbind result_bind Py.bind].
    rewrite (index_nth scs i 0%Q His). cbn [mbind result_bind Py.bind].
    rewrite (index_nth cls i 0 Hic). cbn [mbind result_bind Py.bind].
    destruct (d !! nth (Z.to_nat i) cls 0) as [objs|] eqn:Hk.
    + assert (Hc : 0 <= nth (Z.to_nat i) cls 0 < num_sem_categories cfg)
        by (apply Hd; exists objs; exact Hk).
      right. split; [right; exact Hc|]. eexists. split; [reflexivity|].
      intros k. destruct (decide (nth (Z.to_nat i) cls 0 = k)) as [E|E].
      * subst k. rewrite lookup_insert_eq. split; [intros _; exact Hc | intros _; eexists; reflexivity].
      * rewrite lookup_insert_ne by exact E. apply Hd.
    + left. split; [reflexivity|]. split; [|reflexivity].
      intros Hc. apply Hd in Hc. destruct Hc as [objs Ho]. rewrite Ho in Hk. discriminate.
  - right. split; [left; reflexivity|]. exists d. split; [reflexivity | exact Hd].
Qed.

Lemma instance_loop_key_error (cfg : Config) (origin : Z * Z * Z * Z)
    (rows : list (Z * Z * Z * Z)) (ist : tensor3 Q) (cls : list Z) (scs : list Q)
    (turns : list Z) (d : gmap Z (list ins_obj)) :
  category_keys cfg d ->
  (forall i, In i turns -> 0 <= i < Z.of_nat (length cls) /\ 0 <= i < Z.of_nat (length scs)) ->
  (exists i, In i turns /\ nonempty_mask (map_side cfg) (ist i) = true
             /\ ~ 0 <= nth (Z.to_nat i) cls 0 < num_sem_categories cfg) ->
  instance_loop cfg (Some (origin :: rows)) ist cls scs d turns = Raise KeyError.
Proof.
  revert d. induction turns as [|j rest IH]; intros d Hd Hidx (i & Hi & Hne & Hc); [destruct Hi|].
  destruct (Hidx j (or_introl eq_refl)) as [Hjc Hjs].
  simpl.
  destruct (instance_turn_keys cfg origin rows ist cls scs d j Hd Hjc Hjs)
    as [(_ & _ & ->) | (Hok & d' & -> & Hd')]; [reflexivity|].
  cbn [mbind result_bind Py.bind]. apply IH.
  - exact Hd'.
  - intros i' Hi'. apply Hidx. right. exact Hi'.
  - exists i. split; [|split; assumption].
    destruct Hi as [->|Hi]; [|exact Hi].
    destruct Hok as [Hok|Hok]; [congruence | contradiction].
Qed.

(** ** The confirmed detections *)

Lemma detection_block_confirmed (ext : Extern) (cfg : Config) (batch_size : nat)
    (d : Detections) (locals : det_locals) :
  detection_block ext cfg batch_size (Some d) = Ok locals ->
  (num_detected_instance locals = Some 0
   /\ detected_instances_classes locals = [] /\ detected_instances_scores locals = []
   /\ detected_instances_masks locals = [])
  \/ (num_detected_instance locals = Some (Z.of_nat (length (List.filter id (detect_idx d))))
      /\ detected_instances_classes locals = select (hd [] (classes d)) (detect_idx d)
      /\ detected_instances_scores locals = select (hd [] (scores d)) (detect_idx d)
      /\ detected_instances_masks locals
         = map (MaxPool2d ext (du_scale cfg)) (select (hd [] (masks d)) (detect_idx d))).
Proof.
  unfold detection_block. destruct (length (hd [] (masks d)) =? 0)%nat.
  - intros H. injection H as <-. left. repeat split.
  - destruct (score_relevence d) as [sr|]; [|discriminate].
    cbn [mbind result_bind Py.bind]. intros H. injection H as <-. right. repeat split.
Qed.

Lemma select_self (l : list Q) (f : Q -> bool) : select l (map f l) = List.filter f l.
Proof.
  unfold select. induction l as [|a l IH]; [reflexivity|].
  simpl. destruct (f a); simpl; rewrite IH; reflexivity.
Qed.

Lemma filter_id_map_length {A : Type} (f : A -> bool) (l : list A) :
  length (List.filter id (map f l)) = length (List.filter f l).
Proof.
  induction l as [|a l IH]; [reflexivity|].
  cbn [map List.filter]. unfold id at 1. destruct (f a); cbn [length]; rewrite IH; reflexivity.
Qed.

Lemma filter_length_le {A : Type} (f : A -> bool) (l : list A) :
  (length (List.filter f l) <= length l)%nat.
Proof.
  induction l as [|a l IH]; [reflexivity|].
  simpl. destruct (f a); simpl; lia.
Qed.

(** X8. The confirmed detections are those of batch element 0 whose score
    exceeds 0.5, in detection order: where the scores, classes and masks of
    that element have one entry per detection, the three lists the block
    keeps have [num_detected_instance] entries each, at most one per
    detection, and every kept score exceeds 0.5. *)
Theorem confirmed_detections_consistent
    (ext : Extern) (cfg : Config) (batch_size : nat) (d : Detections) (locals : det_locals) :
  detection_block ext cfg batch_size (Some d) = Ok locals ->
  length (hd [] (classes d)) = length (hd [] (scores d)) ->
  length (hd [] (masks d)) = length (hd [] (scores d)) ->
  exists n,
    num_detected_instance locals = Some n
    /\ 0 <= n <= Z.of_nat (length (hd [] (scores d)))
    /\ Z.of_nat (length (detected_instances_classes locals)) = n
    /\ Z.of_nat (length (detected_instances_scores locals)) = n
    /\ Z.of_nat (length (detected_instances_masks locals)) = n
    /\ Forall (fun s => (1 # 2 < s)%Q) (detected_instances_scores locals).
Proof.
  intros Hd Hc Hm.
  destruct (detection_block_confirmed _ _ _ _ _ Hd) as [(-> & -> & -> & ->) | (-> & -> & -> & ->)].
  - exists 0. repeat split; try reflexivity; try lia. constructor.
  - eexists. split; [reflexivity|].
    assert (Hidx : length (detect_idx d) = length (hd [] (scores d)))
      by (unfold detect_idx; apply length_map).
    rewrite length_map, !select_length by congruence.
    repeat split; try lia.
    + unfold detect_idx. rewrite filter_id_map_length.
      pose proof (filter_length_le (fun s => Qgtb s confirm_detection_threashold) (hd [] (scores d))).
      lia.
    + unfold detect_idx. rewrite select_self. apply List.Forall_forall.
      intros s Hs. apply List.filter_In in Hs as [_ Hs]. apply Qgtb_true in Hs. exact Hs.
Qed.

Lemma confirmed_detections_consistent_witness :
  exists locals n,
    detection_block Sample.ext Sample.cfg 1 (Some Sample.det) = Ok locals
    /\ num_detected_instance locals = Some n
    /\ 0 <= n <= 2
    /\ Z.of_nat (length (detected_instances_masks locals)) = n.
Proof.
  eexists.
  destruct (confirmed_detections_consistent Sample.ext Sample.cfg 1 Sample.det _
              eq_refl eq_refl eq_refl) as (n & Hn & Hr & _ & _ & Hm & _).
  exists n. split; [reflexivity|]. split; [exact Hn|]. split; [exact Hr | exact Hm].
Defined.

(** X9. A confirmed detection that is visible in the local map and whose class
    id is not one of the [num_sem_categories] categories makes the call
    raise KeyError when it files the record, whatever the other detections
    are: the dictionary has no list for that class. *)
Theorem forward_class_outside_categories
    (ext : Extern) (cfg : Config) (MC : MapConstants)
    (obs : list (tensor3 Q)) (oc : Z) (pd : list pose) (cam : option (list (plane Q)))
    (pm : list (tensor3 tval)) (pp : list pose) (det : Detections)
    (origin : Z * Z * Z * Z) (rows : list (Z * Z * Z * Z))
    (locals : det_locals) (n i : Z) :
  detection_block ext cfg (length obs) (Some det) = Ok locals ->
  num_detected_instance locals = Some n ->
  length (hd [] (classes det)) = length (hd [] (scores det)) ->
  0 <= i < n ->
  nonempty_mask (map_side cfg)
    (instances_st (warp ext cfg MC oc n (detected_instances_masks locals)
                     (agent_of obs pd cam pm pp (prob_feat locals) 0)) i) = true ->
  ~ 0 <= nth (Z.to_nat i) (detected_instances_classes locals) 0 < num_sem_categories cfg ->
  forward ext cfg MC obs oc pd cam pm pp (Some det) (Some (origin :: rows)) = Raise KeyError.
Proof.
  intros Hd Hn Hshape Hi Hne Hc.
  assert (Hlen : Z.of_nat (length (detected_instances_classes locals)) = n
                 /\ Z.of_nat (length (detected_instances_scores locals)) = n).
  { destruct (detection_block_confirmed _ _ _ _ _ Hd) as [(Hn' & _) | (Hn' & -> & -> & _)].
    - rewrite Hn in Hn'. injection Hn' as ->. lia.
    - rewrite Hn in Hn'. injection Hn' as ->.
      assert (Hidx : length (detect_idx det) = length (hd [] (scores det)))
        by (unfold detect_idx; apply length_map).
      rewrite !select_length by congruence. split; reflexivity. }
  destruct Hlen as [Hlc Hls].
  unfold forward. rewrite Hd. cbn [mbind result_bind Py.bind].
  rewrite Hn. cbn [read_local mbind result_bind Py.bind].
  replace (0 <? n) with true by (symmetry; apply Z.ltb_lt; lia).
  rewrite instance_loop_key_error; [reflexivity | apply empty_dict_keys | |].
  - intros j Hj. apply in_py_range in Hj. lia.
  - exists i. split; [apply in_py_range; lia|]. split; assumption.
Qed.

Lemma forward_class_outside_categories_witness :
  forward Sample.ext Sample.cfg Sample.MC [Sample.frame] 6 [Sample.still] None
    [Sample.fresh_map] [Sample.origin] (Some det_unlisted) (Some Sample.lmb)
  = Raise KeyError.
Proof.
  refine (forward_class_outside_categories Sample.ext Sample.cfg Sample.MC
            [Sample.frame] 6 [Sample.still] None [Sample.fresh_map] [Sample.origin]
            det_unlisted (100, 124, 200, 224) [] _ 1 0 _ _ _ _ _ _).
  - reflexivity.
  - reflexivity.
  - reflexivity.
  - lia.
  - vm_compute. reflexivity.
  - vm_compute. intros [_ H]. discriminate H.
Defined.

(** ** Class ids outside the relevance table *)

Lemma index_cases {A : Type} (l : list A) (i : Z) :
  (- Z.of_nat (length l) <= i < Z.of_nat (length l) /\ exists a, Py.index l i = Ok a)
  \/ (~ - Z.of_nat (length l) <= i < Z.of_nat (length l) /\ Py.index l i = Raise IndexError).
Proof.
  unfold Py.index.
  destruct (i <? 0) eqn:Hneg;
    [apply Z.ltb_lt in Hneg | apply Z.ltb_ge in Hneg];
    match goal with
    | |- context [(0 <=? ?j) && (?j <? ?n)] =>
        destruct ((0 <=? j) && (j <? n)) eqn:Hb;
          [apply andb_true_iff in Hb as [H1 H2]; apply Z.leb_le in H1; apply Z.ltb_lt in H2
          | apply andb_false_iff in Hb as [Hb|Hb];
            [apply Z.leb_gt in Hb | apply Z.ltb_ge in Hb]]
    end;
    try (right; split; [lia | reflexivity]).
  - left. split; [lia|].
    destruct (nth_error l (Z.to_nat (i + Z.of_nat (length l)))) as [a|] eqn:E;
      [eexists; reflexivity|].
    apply nth_error_None in E. lia.
  - left. split; [lia|].
    destruct (nth_error l (Z.to_nat i)) as [a|] eqn:E; [eexists; reflexivity|].
    apply nth_error_None in E. lia.
Qed.

Lemma mapM_ok {A B : Type} (f : A -> result B) (l : list A) :
  (forall x, In x l -> exists y, f x = Ok y) -> exists ys, mapM f l = Ok ys.
Proof.
  induction l as [|a l IH]; intros H; [eexists; reflexivity|].
  destruct (H a (or_introl eq_refl)) as (y & Hy).
  destruct IH as (ys & Hys); [intros x Hx; apply H; right; exact Hx|].
  exists (y :: ys). simpl. rewrite Hy. simpl. rewrite Hys. reflexivity.
Qed.

Lemma mapM_raise {A B : Type} (f : A -> result B) (l : list A) (E : exn) :
  (forall x, In x l -> (exists y, f x = Ok y) \/ f x = Raise E) ->
  (exists x, In x l /\ f x = Raise E) ->
  mapM f l = Raise E.
Proof.
  induction l as [|a l IH]; intros H (x & Hx & Hr); [destruct Hx|].
  simpl. destruct (H a (or_introl eq_refl)) as [(y & Hy) | Hy].
  - rewrite Hy. simpl. rewrite IH; [reflexivity | |].
    + intros x' Hx'. apply H. right. exact Hx'.
    + exists x. split; [|exact Hr]. destruct Hx as [->|Hx]; [congruence | exact Hx].
  - rewrite Hy. reflexivity.
Qed.

Lemma mapM_cases {A B : Type} (f : A -> result B) (l : list A) (E : exn) :
  (forall x, In x l -> (exists y, f x = Ok y) \/ f x = Raise E) ->
  (exists ys, mapM f l = Ok ys) \/ mapM f l = Raise E.
Proof.
  induction l as [|a l IH]; intros H; [left; eexists; reflexivity|].
  simpl. destruct (H a (or_introl eq_refl)) as [(y & ->) | ->]; [|right; reflexivity].
  destruct IH as [(ys & ->) | ->]; [intros x Hx; apply H; right; exact Hx | |].
  - left. eexists. reflexivity.
  - right. reflexivity.
Qed.

Lemma Forall2_in_combine {A B : Type} (P : A -> B -> Prop) (l : list A) (l' : list B) (x : B) :
  Forall2 P l l' -> In x l' -> exists y, In (y, x) (combine l l') /\ P y x.
Proof.
  induction 1 as [|a b l l' Hab _ IH]; intros Hx; [destruct Hx|].
  destruct Hx as [->|Hx].
  - exists a. split; [left; reflexivity | exact Hab].
  - destruct (IH Hx) as (y & Hy & HP). exists y. split; [right; exact Hy | exact HP].
Qed.

Lemma relevance_entry_cases (d : Detections) (sc : Q * Z) :
  let f := fun sc : Q * Z => r ← index (relevance d) (snd sc); mret (fst sc * r)%Q in
  (- Z.of_nat (length (relevance d)) <= snd sc < Z.of_nat (length (relevance d))
   /\ exists y, f sc = Ok y)
  \/ (~ - Z.of_nat (length (relevance d)) <= snd sc < Z.of_nat (length (relevance d))
      /\ f sc = Raise IndexError).
Proof.
  intros f. unfold f.
  destruct (index_cases (relevance d) (snd sc)) as [(Hin & a & ->) | (Hout & ->)].
  - left. split; [exact Hin|]. eexists. reflexivity.
  - right. split; [exact Hout | reflexivity].
Qed.

(** X10. [relevance[classes]] is the one place where the detection block can
    fail.  For a bundle with at least one instance slot and a class id per
    score, the block returns when every class id indexes the relevance table
    (ids from minus its length up to its length, negative ones counting from
    the end), and raises IndexError as soon as one class id of any batch
    element does not. *)
Theorem class_outside_relevance_raises
    (ext : Extern) (cfg : Config) (batch_size : nat) (d : Detections) :
  length (hd [] (masks d)) <> 0%nat ->
  Forall2 (fun (s : list Q) (c : list Z) => length s = length c) (scores d) (classes d) ->
  let len := Z.of_nat (length (relevance d)) in
  ((forall row c, In row (classes d) -> In c row -> - len <= c < len) ->
   exists locals, detection_block ext cfg batch_size (Some d) = Ok locals)
  /\ ((exists row c, In row (classes d) /\ In c row /\ ~ - len <= c < len) ->
      detection_block ext cfg batch_size (Some d) = Raise IndexError).
Proof.
  intros Hm Hshape len. unfold detection_block.
  replace (length (hd [] (masks d)) =? 0)%nat with false by (symmetry; apply Nat.eqb_neq; exact Hm).
  split.
  - intros Hall.
    destruct (mapM_ok
                (fun row : list Q * list Z =>
                   mapM (fun sc : Q * Z => r ← index (relevance d) (snd sc); mret (fst sc * r)%Q)
                        (combine (fst row) (snd row)))
                (combine (scores d) (classes d))) as (sr & Hsr).
    { intros [s c] Hrow. apply mapM_ok. intros sc Hsc. cbn [fst snd] in Hsc.
      destruct (relevance_entry_cases d sc) as [(_ & Hy) | (Hout & _)]; [exact Hy|].
      exfalso. apply Hout. apply (Hall c).
      - eapply in_combine_r. exact Hrow.
      - destruct sc as [q z]. eapply in_combine_r. exact Hsc. }
    unfold score_relevence. rewrite Hsr. cbn [mbind result_bind Py.bind].
    eexists. reflexivity.
  - intros (row & c & Hrow & Hc & Hout).
    unfold score_relevence. rewrite (mapM_raise _ _ IndexError); [reflexivity | |].
    + intros [s r] _. apply mapM_cases. intros sc _.
      destruct (relevance_entry_cases d sc) as [(_ & Hy) | (_ & Hy)]; [left | right]; exact Hy.
    + destruct (Forall2_in_combine _ _ _ _ Hshape Hrow) as (s & Hs & Hlen).
      exists (s, row). split; [exact Hs|]. cbn [fst snd].
      apply mapM_raise.
      * intros sc _.
        destruct (relevance_entry_cases d sc) as [(_ & Hy) | (_ & Hy)]; [left | right]; exact Hy.
      * destruct (Forall2_in_combine (fun _ _ => True) s row c) as (q & Hq & _);
          [apply Forall2_true; [intros; exact I | exact Hlen] | exact Hc |].
        exists (q, c). split; [exact Hq|].
        destruct (relevance_entry_cases d (q, c)) as [(Hin & _) | (_ & Hy)]; [|exact Hy].
        contradiction.
Qed.

Lemma class_outside_relevance_raises_witness :
  detection_block Sample.ext Sample.cfg 1
    (Some (mkDetections [[9 # 10]] [[2]] [[Sample.full_mask]] [1%Q; 7 # 10]))
  = Raise IndexError.
Proof.
  refine (proj2 (class_outside_relevance_raises Sample.ext Sample.cfg 1
                   (mkDetections [[9 # 10]] [[2]] [[Sample.full_mask]] [1%Q; 7 # 10]) _ _) _).
  - discriminate.
  - repeat constructor.
  - exists [2], 2. split; [left; reflexivity|]. split; [left; reflexivity|].
    simpl. lia.
Defined.

(** ** The height slices fixed by the constructor *)

Lemma Qtrunc_nonneg (x : Q) : (0 <= x)%Q -> Qtrunc x = Qfloor x.
Proof.
  destruct x as [n d]. unfold Qle, Qtrunc, Qfloor. simpl. intros H.
  apply Z.quot_div_nonneg; lia.
Qed.

Lemma Qtrunc_nonpos (x : Q) : (x <= 0)%Q -> Qtrunc x = Qceiling x.
Proof.
  destruct x as [n d]. unfold Qle, Qtrunc, Qceiling, Qfloor. simpl. intros H.
  rewrite <- (Z.opp_involutive n) at 1. rewrite Z.quot_opp_l by lia.
  rewrite Z.quot_div_nonneg by lia. reflexivity.
Qed.

Lemma Qtrunc_mono (x y : Q) : (x <= y)%Q -> Qtrunc x <= Qtrunc y.
Proof.
  intros H. destruct (Qlt_le_dec x 0) as [Hx|Hx]; destruct (Qlt_le_dec y 0) as [Hy|Hy].
  - rewrite !Qtrunc_nonpos by (apply Qlt_le_weak; assumption). apply Qceiling_resp_le, H.
  - rewrite (Qtrunc_nonpos x) by (apply Qlt_le_weak; assumption).
    rewrite (Qtrunc_nonneg y) by assumption.
    apply Z.le_trans with 0.
    + change 0 with (Qceiling 0). apply Qceiling_resp_le, Qlt_le_weak, Hx.
    + change 0 with (Qfloor 0). apply Qfloor_resp_le, Hy.
  - exfalso. apply (Qlt_irrefl 0). apply Qle_lt_trans with y; [|exact Hy].
    apply Qle_trans with x; assumption.
  - rewrite !Qtrunc_nonneg by assumption. apply Qfloor_resp_le, H.
Qed.

Lemma Qfloor_sub_Z (a : Q) (k : Z) : Qfloor (a - inject_Z k) = Qfloor a - k.
Proof.
  assert (Hlo : (inject_Z (Qfloor a - k) <= a - inject_Z k)%Q).
  { unfold Z.sub. rewrite inject_Z_plus, inject_Z_opp. unfold Qminus.
    apply Qplus_le_compat; [apply Qfloor_le | apply Qle_refl]. }
  assert (Hhi : (a - inject_Z k < inject_Z (Qfloor a - k + 1))%Q).
  { replace (Qfloor a - k + 1) with ((Qfloor a + 1) + - k) by lia.
    rewrite inject_Z_plus, inject_Z_opp. unfold Qminus.
    apply Qplus_lt_le_compat; [apply Qlt_floor | apply Qle_refl]. }
  apply Z.le_antisymm.
  - apply Z.lt_succ_r. rewrite Zlt_Qlt. eapply Qle_lt_trans; [apply Qfloor_le|].
    exact Hhi.
  - rewrite <- (Qfloor_Z (Qfloor a - k)). apply Qfloor_resp_le, Hlo.
Qed.

Lemma Qdiv_le_mono (a b c : Q) : (0 < c)%Q -> (a <= b)%Q -> (a / c <= b / c)%Q.
Proof.
  intros Hc H. unfold Qdiv. apply Qmult_le_compat_r; [exact H|].
  apply Qlt_le_weak, Qinv_lt_0_compat, Hc.
Qed.

(** X11. For a positive resolution, a minimum obstacle height between 0 and
    20 cm and a camera between 19 cm and 3.59 m above the ground, the three
    height bounds of the constructor are ordered and lie inside the voxel
    grid: the slices [min_mapped_height : max_mapped_height] and
    [filtered_min_height : max_mapped_height] that [forward] takes are not
    clipped, and the second is contained in the first. *)
Theorem height_slices_nested (cfg : Config) :
  0 < map_resolution cfg ->
  0 <= min_obs_height_cm cfg <= 20 ->
  (19 <= camera_height cfg * 100)%Q ->
  (camera_height cfg * 100 <= 359)%Q ->
  0 <= min_mapped_height cfg
  /\ min_mapped_height cfg <= filtered_min_height cfg
  /\ filtered_min_height cfg <= max_mapped_height cfg
  /\ max_mapped_height cfg <= height_bins cfg.
Proof.
  intros HR [Hm0 Hm20] Hh19 Hh359.
  assert (Hr : (0 < inject_Z (z_resolution cfg))%Q)
    by (unfold z_resolution, Qlt; simpl; lia).
  assert (Hmvh : min_voxel_height cfg <= 0).
  { unfold min_voxel_height. change 0 with (Qtrunc 0). apply Qtrunc_mono.
    apply Qle_shift_div_r; [exact Hr|]. rewrite Qmult_0_l. discriminate. }
  assert (Hneg : (0 <= - inject_Z (min_voxel_height cfg))%Q).
  { rewrite <- inject_Z_opp. change 0%Q with (inject_Z 0). rewrite <- Zle_Qle. lia. }
  assert (Hmo : (0 <= inject_Z (min_obs_height_cm cfg))%Q)
    by (change 0%Q with (inject_Z 0); rewrite <- Zle_Qle; lia).
  assert (Hmo20 : (inject_Z (min_obs_height_cm cfg) <= 20)%Q)
    by (change 20%Q with (inject_Z 20); rewrite <- Zle_Qle; lia).
  assert (Hh1 : (20 <= self_agent_height cfg + 1)%Q).
  { unfold self_agent_height. apply Qle_trans with (19 + 1)%Q; [discriminate|].
    apply Qplus_le_compat; [exact Hh19 | apply Qle_refl]. }
  assert (Hh2 : (self_agent_height cfg + 1 <= 360)%Q).
  { unfold self_agent_height. apply Qle_trans with (359 + 1)%Q; [|discriminate].
    apply Qplus_le_compat; [exact Hh359 | apply Qle_refl]. }
  unfold min_mapped_height, filtered_min_height, max_mapped_height, height_bins, max_voxel_height.
  repeat split.
  - change 0 with (Qtrunc 0). apply Qtrunc_mono.
    apply Qle_trans with (0 + 0)%Q; [discriminate|]. unfold Qminus.
    apply Qplus_le_compat; [|exact Hneg].
    apply Qle_shift_div_l; [exact Hr|]. rewrite Qmult_0_l. exact Hmo.
  - apply Qtrunc_mono. unfold Qminus. apply Qplus_le_compat; [|apply Qle_refl].
    apply Qdiv_le_mono; assumption.
  - apply Qtrunc_mono. unfold Qminus. apply Qplus_le_compat; [|apply Qle_refl].
    apply Qdiv_le_mono; assumption.
  - assert (Hpos : (0 <= (self_agent_height cfg + 1) / inject_Z (z_resolution cfg))%Q).
    { apply Qle_shift_div_l; [exact Hr|]. rewrite Qmult_0_l.
      apply Qle_trans with 20%Q; [discriminate | exact Hh1]. }
    rewrite Qtrunc_nonneg.
    + rewrite Qfloor_sub_Z.
      rewrite (Qtrunc_nonneg (360 / inject_Z (z_resolution cfg))).
      * apply Z.sub_le_mono_r. apply Qfloor_resp_le. apply Qdiv_le_mono; assumption.
      * apply Qle_shift_div_l; [exact Hr|]. rewrite Qmult_0_l. discriminate.
    + apply Qle_trans with (0 + 0)%Q; [discriminate|]. unfold Qminus.
      apply Qplus_le_compat; assumption.
Qed.

Lemma height_slices_nested_witness :
  0 <= min_mapped_height Sample.cfg
  /\ min_mapped_height Sample.cfg <= filtered_min_height Sample.cfg
  /\ filtered_min_height Sample.cfg <= max_mapped_height Sample.cfg
  /\ max_mapped_height Sample.cfg <= height_bins Sample.cfg.
Proof.
  apply (height_slices_nested Sample.cfg).
  - reflexivity.
  - simpl. lia.
  - vm_compute. discriminate.
  - vm_compute. discriminate.
Defined.

(** ** The window of the agent's view *)

(** X12. With a positive resolution and a vision range of at most half the side
    of the local map, the slices [y1:y2] and [x1:x2] into which [forward]
    writes the egocentric projections are not clipped: the window is a
    square of [vision_range] cells a side, its first row is the middle row
    of the local map and it is centred on the middle column. *)
Theorem agent_window_inside_map (cfg : Config) :
  0 < map_resolution cfg ->
  0 <= vision_range cfg <= map_side cfg / 2 ->
  y1 cfg = map_side cfg / 2
  /\ x1 cfg = map_side cfg / 2 - vision_range cfg / 2
  /\ 0 <= x1 cfg /\ x2 cfg <= map_side cfg
  /\ 0 <= y1 cfg /\ y2 cfg <= map_side cfg
  /\ forall r k,
      window cfg r k = true
      <-> y1 cfg <= r < y1 cfg + vision_range cfg /\ x1 cfg <= k < x1 cfg + vision_range cfg.
Proof.
  intros HR [HV0 HV].
  assert (Hhalf : local_map_size_cm cfg / (xy_resolution cfg * 2) = map_side cfg / 2).
  { unfold map_side, xy_resolution. rewrite Z.div_div by lia. reflexivity. }
  assert (Hside : 2 * (map_side cfg / 2) <= map_side cfg).
  { apply Z.mul_div_le. lia. }
  assert (Hv2 : 0 <= vision_range cfg / 2 <= vision_range cfg).
  { split; [apply Z.div_pos; lia | apply Z.div_le_upper_bound; lia]. }
  assert (Hy : y1 cfg = map_side cfg / 2) by (unfold y1; exact Hhalf).
  assert (Hx : x1 cfg = map_side cfg / 2 - vision_range cfg / 2)
    by (unfold x1; rewrite Hhalf; reflexivity).
  split; [exact Hy|]. split; [exact Hx|].
  unfold x2, y2. rewrite Hx, Hy.
  split; [lia|]. split; [lia|]. split; [lia|]. split; [lia|].
  intros r k. unfold window, x2, y2. rewrite Hx, Hy.
  rewrite andb_true_iff, !in_slice_iff by lia. lia.
Qed.

Lemma agent_window_inside_map_witness :
  window Sample.cfg 12 8 = true
  <-> y1 Sample.cfg <= 12 < y1 Sample.cfg + vision_range Sample.cfg
      /\ x1 Sample.cfg <= 8 < x1 Sample.cfg + vision_range Sample.cfg.
Proof.
  refine (proj2 (proj2 (proj2 (proj2 (proj2 (proj2
            (agent_window_inside_map Sample.cfg _ _)))))) 12 8).
  - reflexivity.
  - vm_compute. split; discriminate.
Defined.

(** ** What lines 231-232 change in memory *)

Module StorageFrame.
Import Storage.

(** X14. The two lines touch the caller's memory in one way only: in a float32
    observation the depth entries above [max_depth] become 0.  Every other
    entry of the observation keeps its value, an observation of another
    element type is not written at all, and every other storage that
    existed before the call is left as it was. *)
Theorem depth_lines_frame (max_depth : Q) (h : gmap nat buffer) (obs : tensor) (b : buffer) :
  h !! t_addr obs = Some b ->
  (forall a b0, a <> t_addr obs -> h !! a = Some b0 ->
                (depth_lines max_depth h obs).1 !! a = Some b0)
  /\ (forall e c r k,
        read (depth_lines max_depth h obs).1 obs e c r k
        = Some (if bool_decide (buf_dtype b = float32) && (c =? 3)
                   && Qgtb (buf_data b e c r k) max_depth
                then 0%Q else buf_data b e c r k)).
Proof.
  intros Hb.
  assert (Hfresh : forall a b0, h !! a = Some b0 -> fresh (dom h) <> a).
  { intros a b0 Ha E. apply (is_fresh (dom h)). rewrite E. apply elem_of_dom. eauto. }
  split.
  - intros a b0 Hne Ha. unfold depth_lines, to_float, zero_above. simpl. rewrite Hb.
    destruct (decide (buf_dtype b = float32)); simpl.
    + rewrite Hb. rewrite lookup_insert_ne by congruence. exact Ha.
    + rewrite lookup_insert_eq. rewrite !lookup_insert_ne by (apply (Hfresh a b0 Ha)).
      exact Ha.
  - intros e0 c r k. unfold read.
    destruct (decide (buf_dtype b = float32)) as [Hd|Hd].
    + rewrite (StorageFacts.depth_lines_float32 _ _ _ b Hb Hd). simpl.
      rewrite lookup_insert_eq. simpl.
      rewrite bool_decide_eq_true_2 by exact Hd. reflexivity.
    + rewrite (StorageFacts.depth_lines_other _ _ _ b Hb Hd). simpl.
      rewrite bool_decide_eq_false_2 by exact Hd. reflexivity.
Qed.

Lemma depth_lines_frame_witness :
  read (depth_lines 500 {[ 0%nat := far_frame; 1%nat := far_frame64 ]} obs_tensor).1
       (mkTensor 1 Whole) 0 3 0 0 = Some 600%Q
  /\ read (depth_lines 500 {[ 0%nat := far_frame; 1%nat := far_frame64 ]} obs_tensor).1
          obs_tensor 0 3 0 0 = Some 0%Q.
Proof.
  pose proof (depth_lines_frame 500 {[ 0%nat := far_frame; 1%nat := far_frame64 ]}
                obs_tensor far_frame eq_refl) as [Hframe Hread].
  split.
  - unfold read. simpl. rewrite (Hframe 1%nat far_frame64); [reflexivity | discriminate | reflexivity].
  - rewrite Hread. reflexivity.
Defined.

End StorageFrame.

(** ** The egocentric view before it is warped *)

(** X15. Before the two resampling passes the observation of a call lives in
    the window only: outside the rows [y1:y2] and columns [x1:x2] every
    channel of the concatenated view (map channels, occupancy counts,
    instance evidence) is 0.  Its probability channel is a log-odds of
    [-10, 10] everywhere, and it is 0 in the window cells whose explored
    projection is 0. *)
Theorem egocentric_view_confined
    (ext : Extern) (cfg : Config) (MC : MapConstants)
    (oc n : Z) (ims : list (Z -> Q)) (a : agent_in) :
  layout_ok cfg MC = true ->
  (forall c r k, window cfg r k = false -> agent_view_cat ext cfg MC oc n ims a c r k = 0%Q)
  /\ (forall r k,
        let p := agent_view ext cfg MC oc n ims a (PROBABILITY_MAP MC) r k in
        (-10 <= p)%Q /\ (p <= 10)%Q)
  /\ (forall r k,
        window cfg r k = true ->
        let seen := fp_exp_pred ext cfg oc n ims a (r - y1 cfg) (k - x1 cfg) in
        let p := agent_view ext cfg MC oc n ims a (PROBABILITY_MAP MC) r k in
        (seen == 0)%Q -> (p == 0)%Q).
Proof.
  intros Hl. destruct (layout_facts _ _ Hl) as (H1 & H2 & H3 & H4).
  assert (Hprob : forall r k,
             agent_view ext cfg MC oc n ims a (PROBABILITY_MAP MC) r k
             = if window cfg r k
               then prob_logit ext cfg oc n ims a (r - y1 cfg) (k - x1 cfg) else 0%Q).
  { intros r k. unfold agent_view, assign.
    replace (in_slice (ori_channel_num cfg MC) (NON_SEM_CHANNELS MC) (ori_channel_num cfg MC)
               (PROBABILITY_MAP MC)) with false
      by (symmetry; apply not_true_is_false; intros E;
          apply in_slice_iff in E; unfold ori_channel_num in *; lia).
    replace (in_slice (ori_channel_num cfg MC) (VOXEL_START MC) (NON_SEM_CHANNELS MC)
               (PROBABILITY_MAP MC)) with false
      by (symmetry; apply not_true_is_false; intros E; apply in_slice_iff in E; lia).
    rewrite Z.eqb_refl.
    destruct (window cfg r k); [reflexivity|]. rewrite !andb_false_r. reflexivity. }
  split; [|split].
  - intros c r k Hw. unfold agent_view_cat.
    destruct (c <? ori_channel_num cfg MC).
    + unfold agent_view, assign. rewrite Hw, !andb_false_r. reflexivity.
    + destruct (c <? ori_channel_num cfg MC + max_mapped_height cfg).
      * unfold occupaid_voxel. rewrite Hw. reflexivity.
      * unfold instances. rewrite Hw. reflexivity.
  - intros r k. cbv zeta. rewrite Hprob. destruct (window cfg r k); [|split; discriminate].
    unfold prob_logit. apply Qclamp_bounds. discriminate.
  - intros r k Hw. cbv zeta. intros He. rewrite Hprob, Hw. unfold prob_logit.
    apply Qeq_bool_iff in He. rewrite He. reflexivity.
Qed.

Lemma egocentric_view_confined_witness :
  agent_view_cat Sample.ext Sample.cfg Sample.MC 6 0 [] (Sample.agent Sample.fresh_map) 0 0 0
  = 0%Q.
Proof.
  apply (proj1 (egocentric_view_confined Sample.ext Sample.cfg Sample.MC 6 0 []
                  (Sample.agent Sample.fresh_map) eq_refl)).
  reflexivity.
Defined.
